(** * Session lifecycle of the LSP REST server (src/multilspy/server.py)

    A shallow embedding of [LSPSession] and [SessionManager].  Python
    objects live in a store and are named by references, so that the
    session object returned to a caller and the one kept in the registry
    are the same object.  Every call that leaves server.py (the underlying
    language-server client, [time], [uuid], [os.path.isdir], the locks) is
    answered by an environment and recorded, with its outcome, in a trace. *)

From Stdlib Require Import ZArith Ascii String List.
From stdpp Require Import gmap strings list fin_maps.

Local Open Scope string_scope.
Local Open Scope list_scope.

(** ** Exceptions *)

(** The classes server.py raises or tells apart, the remaining subclasses of
    [Exception], and the classes that derive from [BaseException] only
    (KeyboardInterrupt, SystemExit, ...), which [except Exception] lets
    through. *)
Inductive exn_class : Type :=
| ValueError
| RuntimeError
| FileNotFoundError
| AttributeError
| OtherException (name : string)
| BaseExceptionOnly (name : string).

Record exn : Type := Exn { exn_cls : exn_class; exn_msg : string }.

(** [isinstance(e, Exception)] *)
Definition is_Exception (e : exn) : bool :=
  match exn_cls e with
  | BaseExceptionOnly _ => false
  | _ => true
  end.

(** ** Values *)

(** References to [LSPSession] objects, and opaque handles to the objects
    of the underlying client library. *)
Abbreviation ref := nat.
Abbreviation handle := nat.

(** [multilspy_config.Language], restricted to the members server.py names. *)
Inductive Language : Type := PYTHON | JAVA.

(** [DiagnosticRange] and [DiagnosticItem]; a position is the
    (line, character) pair of the dictionary. *)
Record DiagnosticRange : Type := {
  range_start : Z * Z;
  range_end : Z * Z }.

Record DiagnosticItem : Type := {
  range : DiagnosticRange;
  message : string;
  severity : option Z;
  code : option string;
  source : option string }.

(** The attributes of an [LSPSession].  [created_at] is the clock reading
    taken by the constructor; nothing reads it back.  The session's own
    [_lock] is the lock [SessionLock r] of its reference [r]. *)
Record LSPSession : Type := {
  session_id : string;
  language : string;
  project_path : string;
  lsp : option handle;
  server_context : option handle;
  created_at : Z }.

Definition set_lsp (v : option handle) (o : LSPSession) : LSPSession :=
  {| session_id := session_id o; language := language o;
     project_path := project_path o; lsp := v;
     server_context := server_context o; created_at := created_at o |}.

Definition set_server_context (v : option handle) (o : LSPSession) : LSPSession :=
  {| session_id := session_id o; language := language o;
     project_path := project_path o; lsp := lsp o;
     server_context := v; created_at := created_at o |}.

(** Truth value of an attribute that holds [None] or an object whose class
    defines neither [__bool__] nor [__len__]. *)
Definition truthy {A : Type} (v : option A) : bool :=
  match v with Some _ => true | None => false end.

(** ** The world outside server.py *)

Inductive outcome (A : Type) : Type :=
| Returns (a : A)
| Raises (e : exn).
Arguments Returns {A} a.
Arguments Raises {A} e.

Inductive lock_id : Type :=
| ManagerLock
| SessionLock (r : ref).

(** One entry per call that leaves server.py, with what came back. *)
Inductive event : Type :=
| EvIsDir (path : string) (b : bool)
| EvUuid4 (hex : string)
| EvTime (t : Z)
| EvCreate (l : Language) (path : string) (o : outcome handle)
| EvStartServer (c : handle) (o : outcome handle)
| EvCtxEnter (ctx : handle) (o : outcome unit)
| EvCtxExit (ctx : handle) (o : outcome unit)
| EvAcquire (l : lock_id)
| EvRelease (l : lock_id)
| EvOpenFile (c : handle) (path : string) (o : outcome handle)
| EvCmEnter (cm : handle) (o : outcome unit)
| EvSleep (ms : Z) (o : outcome unit)
| EvRequestDiagnostics (c : handle) (path : string) (o : outcome (list DiagnosticItem))
| EvCmExit (cm : handle) (exc : option exn) (o : outcome bool).

(** The environment answers each call from the history so far, so its
    answers may change from one call to the next.
    - [os_path_isabs] is a function of the string alone;
    - [uuid4_hex] is [uuid.uuid4().hex];
    - [ls_create l p] is [SyncLanguageServer.create(config, logger, p)] for
      the configuration built from [l];
    - [ls_start_server c] is [c.start_server()], [ctx_enter]/[ctx_exit] the
      [__enter__] and [__exit__(None, None, None)] of what it returned;
    - [ls_open_file c p] is [c.open_file(p)], [cm_enter]/[cm_exit] the
      [__enter__] and [__exit__] of what it returned; [cm_exit] gets the
      exception that left the block, if any, and tells whether it
      swallows it;
    - [time_sleep ms] is [time.sleep], in milliseconds;
    - [ls_request_diagnostics c p] is [c.request_diagnostics(p)]. *)
Record environment : Type := {
  os_path_isabs : string -> bool;
  os_path_isdir : list event -> string -> bool;
  uuid4_hex : list event -> string;
  time_time : list event -> Z;
  ls_create : list event -> Language -> string -> outcome handle;
  ls_start_server : list event -> handle -> outcome handle;
  ctx_enter : list event -> handle -> outcome unit;
  ctx_exit : list event -> handle -> outcome unit;
  ls_open_file : list event -> handle -> string -> outcome handle;
  cm_enter : list event -> handle -> outcome unit;
  cm_exit : list event -> handle -> option exn -> outcome bool;
  time_sleep : list event -> Z -> outcome unit;
  ls_request_diagnostics : list event -> handle -> string -> outcome (list DiagnosticItem) }.

(** ** Program states and the monad of server.py's methods *)

(** [heap] is the store of session objects, a reference being an index
    into it; [_sessions] is the dictionary of the one [SessionManager]. *)
Record state : Type := State {
  heap : list LSPSession;
  _sessions : gmap string ref;
  trace : list event }.

Definition initial_state : state :=
  {| heap := []; _sessions := ∅; trace := [] |}.

(** A method returns, raises, or is [Dangling]: it was handed a reference
    to no object, which no Python execution does. *)
Inductive result (A : Type) : Type :=
| Ret (a : A)
| Raise (e : exn)
| Dangling.
Arguments Ret {A} a.
Arguments Raise {A} e.
Arguments Dangling {A}.

Definition M (A : Type) : Type := state -> result A * state.

Definition ret {A : Type} (a : A) : M A := fun s => (Ret a, s).

Definition raise {A : Type} (e : exn) : M A := fun s => (Raise e, s).

Definition bind {A B : Type} (m : M A) (k : A -> M B) : M B :=
  fun s =>
    match m s with
    | (Ret a, s1) => k a s1
    | (Raise e, s1) => (Raise e, s1)
    | (Dangling, s1) => (Dangling, s1)
    end.

Notation "'let!' x ':=' m 'in' k" := (bind m (fun x => k))
  (at level 10, x binder, m at level 200, k at level 200).
Notation "'do!' m 'in' k" := (bind m (fun _ => k))
  (at level 10, m at level 200, k at level 200).

Definition log (ev : event) (s : state) : state :=
  {| heap := heap s; _sessions := _sessions s; trace := trace s ++ [ev] |}.

(** A call that cannot raise. *)
Definition ask {A : Type} (f : list event -> A) (ev : A -> event) : M A :=
  fun s => let a := f (trace s) in (Ret a, log (ev a) s).

(** A call that returns or raises. *)
Definition call {A : Type} (f : list event -> outcome A)
    (ev : outcome A -> event) : M A :=
  fun s =>
    let o := f (trace s) in
    (match o with Returns a => Ret a | Raises e => Raise e end, log (ev o) s).

(** Reading and updating the object behind a reference. *)
Definition deref (r : ref) : M LSPSession :=
  fun s => match heap s !! r with
           | Some o => (Ret o, s)
           | None => (Dangling, s)
           end.

Definition update (r : ref) (f : LSPSession -> LSPSession) : M unit :=
  fun s => match heap s !! r with
           | Some o => (Ret tt, {| heap := <[r := f o]> (heap s);
                                   _sessions := _sessions s;
                                   trace := trace s |})
           | None => (Dangling, s)
           end.

Definition alloc (o : LSPSession) : M ref :=
  fun s => (Ret (length (heap s)),
            {| heap := heap s ++ [o]; _sessions := _sessions s;
               trace := trace s |}).

Definition read_sessions : M (gmap string ref) := fun s => (Ret (_sessions s), s).

Definition write_sessions (m : gmap string ref) : M unit :=
  fun s => (Ret tt, {| heap := heap s; _sessions := m; trace := trace s |}).

(** [self.lsp.<method>]: the attribute is read again at each use. *)
Definition self_lsp (r : ref) (method : string) : M handle :=
  let! self := deref r in
  match lsp self with
  | Some c => ret c
  | None => raise (Exn AttributeError
              ("'NoneType' object has no attribute '" +:+ method +:+ "'"))
  end.

(** ** Control structures *)

(** [with cm: body].  [enter] failing skips both the block and [exit_].
    Otherwise [exit_] runs on every way out of the block: with [None]
    when the block completed or returned, with the exception when it
    raised; a true answer to an exception swallows it, and control goes
    on after the statement ([Ret None]).  An exception raised by [exit_]
    replaces whatever was in flight. *)
Definition with_ {A : Type} (enter : M unit) (exit_ : option exn -> M bool)
    (body : M A) : M (option A) :=
  fun s =>
    match enter s with
    | (Ret _, s1) =>
        match body s1 with
        | (Ret a, s2) =>
            match exit_ None s2 with
            | (Ret _, s3) => (Ret (Some a), s3)
            | (Raise e', s3) => (Raise e', s3)
            | (Dangling, s3) => (Dangling, s3)
            end
        | (Raise e, s2) =>
            match exit_ (Some e) s2 with
            | (Ret true, s3) => (Ret None, s3)
            | (Ret false, s3) => (Raise e, s3)
            | (Raise e', s3) => (Raise e', s3)
            | (Dangling, s3) => (Dangling, s3)
            end
        | (Dangling, s2) => (Dangling, s2)
        end
    | (Raise e, s1) => (Raise e, s1)
    | (Dangling, s1) => (Dangling, s1)
    end.

(** [threading.Lock] as a context manager: [__exit__] releases and
    returns [None]. *)
Definition acquire (l : lock_id) : M unit :=
  fun s => (Ret tt, log (EvAcquire l) s).

Definition release (l : lock_id) : M bool :=
  fun s => (Ret false, log (EvRelease l) s).

Definition with_lock {A : Type} (l : lock_id) (body : M A) : M (option A) :=
  with_ (acquire l) (fun _ => release l) body.

(** [try: m / except Exception: pass] *)
Definition try_except_Exception_pass (m : M unit) : M unit :=
  fun s =>
    match m s with
    | (Raise e, s1) => if is_Exception e then (Ret tt, s1) else (Raise e, s1)
    | other => other
    end.

(** The block of a [with] that is left by [return]: the function returns
    what the block returned, and [None] (here [None] too) when a context
    manager swallowed an exception and control fell off the end. *)
Definition returned {A : Type} (v : option (option A)) : option A := mjoin v.

(** ** LSPSession *)

Section Server.

Variable env : environment.

(** [LSPSession.__init__] *)
Definition LSPSession_init (sid lang path : string) : M ref :=
  let! t := ask (time_time env) EvTime in
  alloc {| session_id := sid; language := lang; project_path := path;
           lsp := None; server_context := None; created_at := t |}.

(** [LSPSession.start] *)
Definition start (r : ref) : M unit :=
  let! self := deref r in
  let lang_enum := if String.eqb (language self) "python" then PYTHON else JAVA in
  let! c := call (fun tr => ls_create env tr lang_enum (project_path self))
                 (EvCreate lang_enum (project_path self)) in
  do! update r (set_lsp (Some c)) in
  let! c1 := self_lsp r "start_server" in
  let! ctx := call (fun tr => ls_start_server env tr c1) (EvStartServer c1) in
  do! update r (set_server_context (Some ctx)) in
  let! self1 := deref r in
  match server_context self1 with
  | Some ctx1 => call (fun tr => ctx_enter env tr ctx1) (EvCtxEnter ctx1)
  | None => raise (Exn AttributeError
              "'NoneType' object has no attribute '__enter__'")
  end.

(** [LSPSession.stop] *)
Definition stop (r : ref) : M unit :=
  let! self := deref r in
  do! match server_context self with
      | Some ctx =>
          try_except_Exception_pass
            (call (fun tr => ctx_exit env tr ctx) (EvCtxExit ctx))
      | None => ret tt
      end in
  do! update r (set_lsp None) in
  update r (set_server_context None).

(** The argument of [time.sleep], 2.0 s or 5.0 s, in milliseconds. *)
Definition sleep_ms (lang : string) : Z :=
  if String.eqb lang "python" then 2000%Z else 5000%Z.

(** [LSPSession.get_diagnostics]; the result [None] is Python's [None]. *)
Definition get_diagnostics (r : ref) (file_path : string)
    : M (option (list DiagnosticItem)) :=
  let! self := deref r in
  if negb (truthy (lsp self)) then
    raise (Exn RuntimeError "LSP server not started")
  else
    let! v :=
      with_lock (SessionLock r)
        (let! c := self_lsp r "open_file" in
         let! cm := call (fun tr => ls_open_file env tr c file_path)
                         (EvOpenFile c file_path) in
         with_ (call (fun tr => cm_enter env tr cm) (EvCmEnter cm))
               (fun exc => call (fun tr => cm_exit env tr cm exc)
                                (EvCmExit cm exc))
               (let! self1 := deref r in
                do! call (fun tr => time_sleep env tr (sleep_ms (language self1)))
                         (EvSleep (sleep_ms (language self1))) in
                let! c1 := self_lsp r "request_diagnostics" in
                call (fun tr => ls_request_diagnostics env tr c1 file_path)
                     (EvRequestDiagnostics c1 file_path))) in
    ret (returned v).

(** ** SessionManager *)

(** [SessionManager.create_session] *)
Definition create_session (lang path : string) : M ref :=
  if negb (String.eqb lang "python" || String.eqb lang "java") then
    raise (Exn ValueError ("Unsupported language: " +:+ lang))
  else if negb (os_path_isabs env path) then
    raise (Exn ValueError "project_path must be an absolute path")
  else
    let! isdir := ask (fun tr => os_path_isdir env tr path) (EvIsDir path) in
    if negb isdir then
      raise (Exn ValueError ("project_path does not exist: " +:+ path))
    else
      let! hex := ask (uuid4_hex env) EvUuid4 in
      let sid := substring 0 12 hex in
      let! session := LSPSession_init sid lang path in
      do! start session in
      do! with_lock ManagerLock
            (let! m := read_sessions in
             write_sessions (<[sid := session]> m)) in
      ret session.

(** [SessionManager.get_session] *)
Definition get_session (sid : string) : M (option ref) :=
  let! v := with_lock ManagerLock
              (let! m := read_sessions in ret (m !! sid)) in
  ret (returned v).

(** [SessionManager.delete_session]; an [LSPSession] object is always
    true, so [if session] tests for [None]. *)
Definition delete_session (sid : string) : M bool :=
  let! v := with_lock ManagerLock
              (let! m := read_sessions in
               do! write_sessions (delete sid m) in
               ret (m !! sid)) in
  match returned v with
  | Some session => do! stop session in ret true
  | None => ret false
  end.

End Server.

(** The session object once [stop] has gone through its last two
    assignments. *)
Definition cleared (o : LSPSession) : LSPSession :=
  set_server_context None (set_lsp None o).

(** The manager's lock taken and given back around a dictionary access. *)
Definition locked_registry_access : list event :=
  [EvAcquire ManagerLock; EvRelease ManagerLock].

(** ** The steps of GetDiagnostics, as the specification words them

    Inside the session lock: (1) the file is opened in the client, as a
    scope that is closed on every way out; (2) a wait of fixed length;
    (3) the client is asked for the diagnostics of the file, and its
    answer is the result. *)

(** Steps 2 and 3, the block inside the scope, with how it ends. *)
Inductive spec_wait_then_query (c : handle) (file_path : string) (ms : Z)
    : list event -> outcome (list DiagnosticItem) -> Prop :=
| spec_wait_raises (e : exn) :
    spec_wait_then_query c file_path ms [EvSleep ms (Raises e)] (Raises e)
| spec_query (o : outcome (list DiagnosticItem)) :
    spec_wait_then_query c file_path ms
      [EvSleep ms (Returns tt); EvRequestDiagnostics c file_path o] o.

(** What leaves the scope, from how the block ended and what closing the
    file answered. *)
Definition spec_scope_result (block : outcome (list DiagnosticItem))
    (closing : outcome bool) : result (option (list DiagnosticItem)) :=
  match block with
  | Returns ds =>
      match closing with
      | Returns _ => Ret (Some ds)
      | Raises e' => Raise e'
      end
  | Raises e =>
      match closing with
      | Returns swallowed => if swallowed then Ret None else Raise e
      | Raises e' => Raise e'
      end
  end.

Definition exception_of {A : Type} (o : outcome A) : option exn :=
  match o with Returns _ => None | Raises e => Some e end.

Inductive spec_GetDiagnostics (c : handle) (file_path : string) (ms : Z)
    : list event -> result (option (list DiagnosticItem)) -> Prop :=
| spec_open_fails (e : exn) :
    spec_GetDiagnostics c file_path ms
      [EvOpenFile c file_path (Raises e)] (Raise e)
| spec_enter_fails (cm : handle) (e : exn) :
    spec_GetDiagnostics c file_path ms
      [EvOpenFile c file_path (Returns cm); EvCmEnter cm (Raises e)] (Raise e)
| spec_scoped (cm : handle) (blk : list event)
      (block : outcome (list DiagnosticItem)) (closing : outcome bool) :
    spec_wait_then_query c file_path ms blk block ->
    spec_GetDiagnostics c file_path ms
      ([EvOpenFile c file_path (Returns cm); EvCmEnter cm (Returns tt)]
         ++ blk ++ [EvCmExit cm (exception_of block) closing])
      (spec_scope_result block closing).

(** ** Sequences of registry operations

    The calls the request handlers make on the one [SessionManager]:
    create, look up, delete, and look up then query.  A handler turns
    whatever is raised into a response, so the next operation runs in the
    state the previous one left. *)
Inductive registry_op : Type :=
| OpCreate (lang path : string)
| OpGet (sid : string)
| OpDelete (sid : string)
| OpDiagnostics (sid file_path : string).

Definition run_op (env : environment) (op : registry_op) (s : state) : state :=
  match op with
  | OpCreate lang path => snd (create_session env lang path s)
  | OpGet sid => snd (get_session sid s)
  | OpDelete sid => snd (delete_session env sid s)
  | OpDiagnostics sid file_path =>
      match get_session sid s with
      | (Ret (Some r), s1) => snd (get_diagnostics env r file_path s1)
      | (_, s1) => s1
      end
  end.

Definition run_ops (env : environment) (ops : list registry_op) (s : state)
    : state :=
  fold_left (fun st op => run_op env op st) ops s.

(** The values [uuid.uuid4().hex] returned so far, oldest first. *)
Fixpoint drawn_uuids (tr : list event) : list string :=
  match tr with
  | [] => []
  | EvUuid4 hex :: tr' => hex :: drawn_uuids tr'
  | _ :: tr' => drawn_uuids tr'
  end.

(** The identifiers given to the sessions constructed so far, oldest first. *)
Definition created_ids (s : state) : list string :=
  session_id <$> heap s.

(** ** Environments to run the model on *)

(** [posixpath.isabs] *)
Definition posix_isabs (p : string) : bool :=
  match p with
  | String c _ => Ascii.eqb c "/"%char
  | EmptyString => false
  end.

Definition sample_diagnostic : DiagnosticItem :=
  {| range := {| range_start := (3, 0)%Z; range_end := (3, 19)%Z |};
     message := "'(' was never closed";
     severity := Some 1%Z;
     code := None;
     source := Some "jedi" |}.

(** Every directory exists, the [n]-th UUID drawn is the [n]-th of
    [uuids], the client starts, serves [sample_diagnostic] for every file,
    and answers a teardown with [teardown]; handles are numbered by the
    length of the history. *)
Definition sample_env (uuids : list string) (teardown : outcome unit)
    : environment :=
  {| os_path_isabs := posix_isabs;
     os_path_isdir := fun _ _ => true;
     uuid4_hex := fun tr => nth (length (drawn_uuids tr)) uuids "";
     time_time := fun tr => Z.of_nat (length tr);
     ls_create := fun tr _ _ => Returns (length tr);
     ls_start_server := fun tr _ => Returns (length tr);
     ctx_enter := fun _ _ => Returns tt;
     ctx_exit := fun _ _ => teardown;
     ls_open_file := fun tr _ _ => Returns (length tr);
     cm_enter := fun _ _ => Returns tt;
     cm_exit := fun _ _ _ => Returns false;
     time_sleep := fun _ _ => Returns tt;
     ls_request_diagnostics := fun _ _ _ => Returns [sample_diagnostic] |}.

Definition uuid_a : string := "3f2a9c04d17e4b6a9c58e0d2a7b41f63".
Definition uuid_b : string := "b81e55a07c3d4f029a6d1c4e8f7025ab".
(** A second UUID that agrees with [uuid_a] on its first twelve digits. *)
Definition uuid_a' : string := "3f2a9c04d17e4e19b3c07a55d0e6f812".

Definition quiet_env : environment :=
  sample_env [uuid_a; uuid_b] (Returns tt).

Definition failing_teardown_env : environment :=
  sample_env [uuid_a; uuid_b]
    (Raises (Exn (OtherException "TimeoutError") "server did not exit")).

Definition colliding_env : environment :=
  sample_env [uuid_a; uuid_a'] (Returns tt).

(** The state after one Python session over [/srv/app] was created. *)
Definition one_session (env : environment) : state :=
  snd (create_session env "python" "/srv/app" initial_state).

(** The states after a Python session over [/srv/app], and then a Java
    session over [/srv/shop], were created. *)
Definition first_created (env : environment) : state :=
  run_ops env [OpCreate "python" "/srv/app"] initial_state.

Definition both_created (env : environment) : state :=
  run_ops env [OpCreate "python" "/srv/app"; OpCreate "java" "/srv/shop"]
    initial_state.

(** The state after the one session of [one_session] was stopped. *)
Definition one_stopped (env : environment) : state :=
  snd (stop env 0 (one_session env)).

(** ** Notions used in the statements *)

(** The outcome [ev] records is the one the environment gives for that
    call after the history [tr].  The locks are not the environment's. *)
Definition answers (env : environment) (tr : list event) (ev : event) : Prop :=
  match ev with
  | EvIsDir path b => b = os_path_isdir env tr path
  | EvUuid4 hex => hex = uuid4_hex env tr
  | EvTime t => t = time_time env tr
  | EvCreate l path o => o = ls_create env tr l path
  | EvStartServer c o => o = ls_start_server env tr c
  | EvCtxEnter ctx o => o = ctx_enter env tr ctx
  | EvCtxExit ctx o => o = ctx_exit env tr ctx
  | EvAcquire _ => True
  | EvRelease _ => True
  | EvOpenFile c path o => o = ls_open_file env tr c path
  | EvCmEnter cm o => o = cm_enter env tr cm
  | EvSleep ms o => o = time_sleep env tr ms
  | EvRequestDiagnostics c path o => o = ls_request_diagnostics env tr c path
  | EvCmExit cm exc o => o = cm_exit env tr cm exc
  end.

(** Each event of [evs], made one after the other from the history [tr]
    on, records the environment's own answer. *)
Fixpoint answered_by (env : environment) (tr evs : list event) : Prop :=
  match evs with
  | [] => True
  | ev :: evs' => answers env tr ev /\ answered_by env (tr ++ [ev]) evs'
  end.

(** The error of [get_diagnostics] on a session without a client. *)
Definition NotRunning : exn := Exn RuntimeError "LSP server not started".

(** The state once the manager's lock was taken, the dictionary left as
    [m], and the lock given back. *)
Definition registry_accessed (m : gmap string ref) (s : state) : state :=
  {| heap := heap s; _sessions := m;
     trace := trace s ++ locked_registry_access |}.

(** The member of [Language] that [start] picks for a language name. *)
Definition lang_enum_of (lang : string) : Language :=
  if String.eqb lang "python" then PYTHON else JAVA.

(** The languages [create_session] accepts. *)
Definition valid_language (lang : string) : Prop :=
  lang = "python" \/ lang = "java".

(** The identifier [create_session] draws in state [s], and the state in
    which it then calls [start]: the directory was found, the UUID drawn,
    the session object constructed. *)
Definition drawn_hex (env : environment) (path : string) (s : state) : string :=
  uuid4_hex env (trace s ++ [EvIsDir path true]).

Definition drawn_id (env : environment) (path : string) (s : state) : string :=
  substring 0 12 (drawn_hex env path s).

Definition constructed (env : environment) (lang path : string) (s : state)
    : state :=
  snd (LSPSession_init env (drawn_id env path s) lang path
         (log (EvUuid4 (drawn_hex env path s)) (log (EvIsDir path true) s))).

(** What an operation may do to the identifiers: none is created, none is
    drawn. *)
Definition same_ids (s s' : state) : Prop :=
  created_ids s' = created_ids s /\
  drawn_uuids (trace s') = drawn_uuids (trace s).

(** The invariant of the registry: the identifiers of the sessions
    constructed so far are the 12-character prefixes of the UUIDs drawn so
    far, in the same order; and every entry of the registry leads to a
    session object that carries the key as its identifier. *)
Definition registry_inv (s : state) : Prop :=
  created_ids s = substring 0 12 <$> drawn_uuids (trace s) /\
  forall sid r, _sessions s !! sid = Some r -> created_ids s !! r = Some sid.

(** ** Threads running get_diagnostics side by side

    Several callers run [get_diagnostics], each on some session, and the
    scheduler decides who moves.  A thread stands at the operation it is
    inside of; a step is that operation coming to its end, with whatever
    outcome, and the thread going on to the next one.  [AtAcquire] can
    only end while the session's lock is free. *)
Module Interleaving.

Inductive pc : Type :=
| AtCheck
| AtAcquire
| AtOpenFile
| AtEnter (cm : handle)
| AtSleep (cm : handle)
| AtRequest (cm : handle)
| AtClose (cm : handle) (block : outcome (list DiagnosticItem))
| AtRelease (res : result (option (list DiagnosticItem)))
| Finished (res : result (option (list DiagnosticItem))).

(** Between the end of the acquire and the end of the release. *)
Definition inside_lock (p : pc) : bool :=
  match p with
  | AtOpenFile | AtEnter _ | AtSleep _ | AtRequest _ | AtClose _ _
  | AtRelease _ => true
  | AtCheck | AtAcquire | Finished _ => false
  end.

(** Inside a call to the underlying client. *)
Definition on_client (p : pc) : bool :=
  match p with
  | AtOpenFile | AtEnter _ | AtRequest _ | AtClose _ _ => true
  | _ => false
  end.

Record thread : Type := Thread {
  th_session : ref;
  th_file : string;
  th_pc : pc }.

(** [c_held] are the sessions whose lock is held; the trace says which
    thread made each call. *)
Record config : Type := Config {
  c_heap : list LSPSession;
  c_held : gset nat;
  c_threads : list thread;
  c_trace : list (nat * event) }.

(** How the [with] around the block is left, as in [with_]. *)
Definition after_exit (block : outcome (list DiagnosticItem))
    (closing : outcome bool) : result (option (list DiagnosticItem)) :=
  match block with
  | Returns ds =>
      match closing with
      | Returns _ => Ret (Some ds)
      | Raises e' => Raise e'
      end
  | Raises e =>
      match closing with
      | Returns true => Ret None
      | Returns false => Raise e
      | Raises e' => Raise e'
      end
  end.

Definition no_attribute (method : string) : exn :=
  Exn AttributeError ("'NoneType' object has no attribute '" +:+ method +:+ "'").

Inductive thread_step (o : LSPSession) (r : ref) (file_path : string)
    : pc -> gset nat -> list event -> pc -> gset nat -> Prop :=
| step_not_running held :
    lsp o = None ->
    thread_step o r file_path AtCheck held []
      (Finished (Raise (Exn RuntimeError "LSP server not started"))) held
| step_running held c :
    lsp o = Some c ->
    thread_step o r file_path AtCheck held [] AtAcquire held
| step_acquire held :
    r ∉ held ->
    thread_step o r file_path AtAcquire held
      [EvAcquire (SessionLock r)] AtOpenFile ({[r]} ∪ held)
| step_open_file held c out :
    lsp o = Some c ->
    thread_step o r file_path AtOpenFile held
      [EvOpenFile c file_path out]
      (match out with
       | Returns cm => AtEnter cm
       | Raises e => AtRelease (Raise e)
       end) held
| step_open_file_no_client held :
    lsp o = None ->
    thread_step o r file_path AtOpenFile held []
      (AtRelease (Raise (no_attribute "open_file"))) held
| step_enter held cm out :
    thread_step o r file_path (AtEnter cm) held
      [EvCmEnter cm out]
      (match out with
       | Returns _ => AtSleep cm
       | Raises e => AtRelease (Raise e)
       end) held
| step_sleep held cm out :
    thread_step o r file_path (AtSleep cm) held
      [EvSleep (sleep_ms (language o)) out]
      (match out with
       | Returns _ => AtRequest cm
       | Raises e => AtClose cm (Raises e)
       end) held
| step_request held cm c out :
    lsp o = Some c ->
    thread_step o r file_path (AtRequest cm) held
      [EvRequestDiagnostics c file_path out] (AtClose cm out) held
| step_request_no_client held cm :
    lsp o = None ->
    thread_step o r file_path (AtRequest cm) held []
      (AtClose cm (Raises (no_attribute "request_diagnostics"))) held
| step_close held cm block closing :
    thread_step o r file_path (AtClose cm block) held
      [EvCmExit cm (exception_of block) closing]
      (AtRelease (after_exit block closing)) held
| step_release held res :
    thread_step o r file_path (AtRelease res) held
      [EvRelease (SessionLock r)] (Finished res) (held ∖ {[r]}).

(** Thread [i] moves. *)
Inductive step : config -> config -> Prop :=
| step_thread cfg i t o evs p' held' :
    c_threads cfg !! i = Some t ->
    c_heap cfg !! th_session t = Some o ->
    thread_step o (th_session t) (th_file t) (th_pc t) (c_held cfg) evs p' held' ->
    step cfg
      {| c_heap := c_heap cfg;
         c_held := held';
         c_threads := <[i := Thread (th_session t) (th_file t) p']> (c_threads cfg);
         c_trace := c_trace cfg ++ ((fun ev => (i, ev)) <$> evs) |}.

(** All calls just made, none under way, no lock held. *)
Definition initial (h : list LSPSession) (calls : list (ref * string)) : config :=
  {| c_heap := h;
     c_held := ∅;
     c_threads := (fun call => Thread (fst call) (snd call) AtCheck) <$> calls;
     c_trace := [] |}.

Definition reachable (h : list LSPSession) (calls : list (ref * string))
    (cfg : config) : Prop :=
  rtc step (initial h calls) cfg.

(** The invariant of the session locks: a thread inside a lock holds it,
    two threads inside the lock of one session are one thread, and a held
    lock has its thread. *)
Definition lock_inv (cfg : config) : Prop :=
  (forall i t, c_threads cfg !! i = Some t -> inside_lock (th_pc t) = true ->
     th_session t ∈ c_held cfg) /\
  (forall i j ti tj,
     c_threads cfg !! i = Some ti -> c_threads cfg !! j = Some tj ->
     inside_lock (th_pc ti) = true -> inside_lock (th_pc tj) = true ->
     th_session ti = th_session tj -> i = j) /\
  (forall r, r ∈ c_held cfg ->
     exists i t, c_threads cfg !! i = Some t /\ th_session t = r /\
                 inside_lock (th_pc t) = true).

(** Consecutive steps of one thread. *)
Inductive thread_run (o : LSPSession) (r : ref) (file_path : string)
    : pc -> gset nat -> list event -> pc -> gset nat -> Prop :=
| run_done p held :
    thread_run o r file_path p held [] p held
| run_step p held evs1 p1 held1 evs2 p2 held2 :
    thread_step o r file_path p held evs1 p1 held1 ->
    thread_run o r file_path p1 held1 evs2 p2 held2 ->
    thread_run o r file_path p held (evs1 ++ evs2) p2 held2.

End Interleaving.

(** * The rest of server.py: key order, request handlers *)

(** ** SessionManager with the order of its dictionary's keys

    A Python [dict] keeps its keys in the order of their first insertion,
    which [_sessions] of [state] forgets.  [sv_keys] carries that order
    along: an assignment to a new key puts it last, an assignment to a key
    already there leaves the order, and [pop] takes the key out. *)
Record served : Type := Served {
  sv_state : state;
  sv_keys : list string }.

Definition initial_served : served :=
  {| sv_state := initial_state; sv_keys := [] |}.

Definition keys_setitem (k : string) (keys : list string) : list string :=
  if bool_decide (k ∈ keys) then keys else keys ++ [k].

Definition keys_pop (k : string) (keys : list string) : list string :=
  filter (fun k' => k' <> k) keys.

Definition MS (A : Type) : Type := served -> result A * served.

(** A method that leaves the keys of the dictionary alone. *)
Definition lift {A : Type} (m : M A) : MS A :=
  fun sv =>
    let (res, s') := m (sv_state sv) in
    (res, {| sv_state := s'; sv_keys := sv_keys sv |}).

(** [create_session], with the key of [self._sessions[session_id] = session]
    recorded. *)
Definition ordered_create_session (env : environment) (lang path : string)
    : MS ref :=
  fun sv =>
    match create_session env lang path (sv_state sv) with
    | (Ret session, s') =>
        (Ret session,
         {| sv_state := s';
            sv_keys := match heap s' !! session with
                       | Some o => keys_setitem (session_id o) (sv_keys sv)
                       | None => sv_keys sv
                       end |})
    | (res, s') => (res, {| sv_state := s'; sv_keys := sv_keys sv |})
    end.

(** [delete_session], with the key of [self._sessions.pop(session_id, None)]
    taken out. *)
Definition ordered_delete_session (env : environment) (sid : string)
    : MS bool :=
  fun sv =>
    let (res, s') := delete_session env sid (sv_state sv) in
    (res, {| sv_state := s'; sv_keys := keys_pop sid (sv_keys sv) |}).

(** [SessionManager.list_sessions]; [None] is Python's [None]. *)
Definition list_sessions : MS (option (list string)) :=
  fun sv => lift (with_lock ManagerLock (ret (sv_keys sv))) sv.

(** ** The request handlers

    The handlers are coroutines without a single [await]: each runs from
    its first statement to its last before the event loop starts another,
    so a sequence of requests is a sequence of handler runs.  The handlers
    [create_session], [get_diagnostics], [delete_session] and
    [list_sessions] of the module carry the names of the methods they
    call and are [api_...] here. *)
Module Gateway.

(** [fastapi.HTTPException] *)
Record HTTPException : Type := {
  status_code : Z;
  detail : string }.

Record InitSessionRequest : Type := {
  request_language : string;
  request_project_path : string }.

Record InitSessionResponse : Type := {
  init_session_id : string;
  init_status : string;
  init_language : string;
  init_project_path : string }.

Record DiagnosticsResponse : Type := {
  diagnostics_file_path : string;
  diagnostics : list DiagnosticItem;
  count : nat }.

Record StatusResponse : Type := {
  status : string;
  status_message : option string }.

(** A handler returns its response model, raises [HTTPException], lets
    another exception through, or is [Broken] (it met a [Dangling]
    reference). *)
Inductive reply (A : Type) : Type :=
| Responds (body : A)
| HttpError (e : HTTPException)
| Uncaught (e : exn)
| Broken.
Arguments Responds {A} body.
Arguments HttpError {A} e.
Arguments Uncaught {A} e.
Arguments Broken {A}.

Definition handler (A : Type) : Type := served -> reply A * served.

(** [root] *)
Definition api_root : handler StatusResponse :=
  fun sv =>
    (Responds {| status := "ok";
                 status_message := Some "LSP REST API Server is running" |}, sv).

(** [create_session]: [except ValueError] answers 400, [except Exception]
    after it answers 500. *)
Definition api_create_session (env : environment) (request : InitSessionRequest)
    : handler InitSessionResponse :=
  fun sv =>
    match ordered_create_session env (request_language request)
            (request_project_path request) sv with
    | (Ret session, sv1) =>
        match heap (sv_state sv1) !! session with
        | Some o =>
            (Responds {| init_session_id := session_id o;
                         init_status := "ready";
                         init_language := language o;
                         init_project_path := project_path o |}, sv1)
        | None => (Broken, sv1)
        end
    | (Raise e, sv1) =>
        match exn_cls e with
        | ValueError =>
            (HttpError {| status_code := 400; detail := exn_msg e |}, sv1)
        | _ =>
            if is_Exception e then
              (HttpError {| status_code := 500;
                            detail := "Failed to start LSP server: " +:+ exn_msg e |},
               sv1)
            else (Uncaught e, sv1)
        end
    | (Dangling, sv1) => (Broken, sv1)
    end.

(** Iterating over [None] in the list comprehension. *)
Definition none_not_iterable : exn :=
  Exn (OtherException "TypeError") "'NoneType' object is not iterable".

(** [get_diagnostics]: the lookup is outside the [try]; inside it,
    [except FileNotFoundError] answers 404 and [except Exception] after it
    500.  The list comprehension rebuilds each dictionary of the client
    as a [DiagnosticItem], which is how the model already holds it. *)
Definition api_get_diagnostics (env : environment) (sid file_path : string)
    : handler DiagnosticsResponse :=
  fun sv =>
    match lift (get_session sid) sv with
    | (Ret (Some session), sv1) =>
        let caught (e : exn) : reply DiagnosticsResponse :=
          match exn_cls e with
          | FileNotFoundError =>
              HttpError {| status_code := 404;
                           detail := "File not found: " +:+ file_path |}
          | _ =>
              if is_Exception e then
                HttpError {| status_code := 500;
                             detail := "Error getting diagnostics: " +:+ exn_msg e |}
              else Uncaught e
          end in
        match lift (get_diagnostics env session file_path) sv1 with
        | (Ret (Some ds), sv2) =>
            (Responds {| diagnostics_file_path := file_path;
                         diagnostics := ds;
                         count := length ds |}, sv2)
        | (Ret None, sv2) => (caught none_not_iterable, sv2)
        | (Raise e, sv2) => (caught e, sv2)
        | (Dangling, sv2) => (Broken, sv2)
        end
    | (Ret None, sv1) =>
        (HttpError {| status_code := 404;
                      detail := "Session not found: " +:+ sid |}, sv1)
    | (Raise e, sv1) => (Uncaught e, sv1)
    | (Dangling, sv1) => (Broken, sv1)
    end.

(** [delete_session] *)
Definition api_delete_session (env : environment) (sid : string)
    : handler StatusResponse :=
  fun sv =>
    match ordered_delete_session env sid sv with
    | (Ret true, sv1) =>
        (Responds {| status := "shutdown";
                     status_message :=
                       Some ("Session " +:+ sid +:+ " has been shutdown") |}, sv1)
    | (Ret false, sv1) =>
        (HttpError {| status_code := 404;
                      detail := "Session not found: " +:+ sid |}, sv1)
    | (Raise e, sv1) => (Uncaught e, sv1)
    | (Dangling, sv1) => (Broken, sv1)
    end.

(** [list_sessions] *)
Definition api_list_sessions : handler (option (list string)) :=
  fun sv =>
    match list_sessions sv with
    | (Ret ids, sv1) => (Responds ids, sv1)
    | (Raise e, sv1) => (Uncaught e, sv1)
    | (Dangling, sv1) => (Broken, sv1)
    end.

(** Requests, what they are answered with, and the server taking them one
    after the other. *)
Inductive request : Type :=
| GetRoot
| PostSessions (body : InitSessionRequest)
| GetDiagnostics (sid file_path : string)
| DeleteSession (sid : string)
| GetSessions.

Inductive answer : Type :=
| RootAnswer (r : reply StatusResponse)
| InitAnswer (r : reply InitSessionResponse)
| DiagnosticsAnswer (r : reply DiagnosticsResponse)
| DeleteAnswer (r : reply StatusResponse)
| ListAnswer (r : reply (option (list string))).

Definition serve (env : environment) (rq : request) (sv : served)
    : answer * served :=
  match rq with
  | GetRoot => let (r, sv1) := api_root sv in (RootAnswer r, sv1)
  | PostSessions body =>
      let (r, sv1) := api_create_session env body sv in (InitAnswer r, sv1)
  | GetDiagnostics sid file_path =>
      let (r, sv1) := api_get_diagnostics env sid file_path sv in
      (DiagnosticsAnswer r, sv1)
  | DeleteSession sid =>
      let (r, sv1) := api_delete_session env sid sv in (DeleteAnswer r, sv1)
  | GetSessions => let (r, sv1) := api_list_sessions sv in (ListAnswer r, sv1)
  end.

Fixpoint serve_all (env : environment) (rqs : list request) (sv : served)
    : list answer * served :=
  match rqs with
  | [] => ([], sv)
  | rq :: rqs' =>
      let (a, sv1) := serve env rq sv in
      let (answers, sv2) := serve_all env rqs' sv1 in
      (a :: answers, sv2)
  end.

End Gateway.

(** ** Notions used in the statements about the rest *)

(** The attributes no method assigns after the constructor. *)
Definition same_identity (o o' : LSPSession) : Prop :=
  session_id o' = session_id o /\ language o' = language o /\
  project_path o' = project_path o /\ created_at o' = created_at o.

(** The history [tr] has, one after the other, the creation of client [c]
    for this language and path, the handing out of its server context
    [ctx] and the entering of that context, each answered with success by
    the environment. *)
Definition started_in (env : environment) (tr : list event)
    (lang path : string) (c ctx : handle) : Prop :=
  exists tr1 tr2,
    tr = tr1 ++
           [EvCreate (lang_enum_of lang) path (Returns c);
            EvStartServer c (Returns ctx); EvCtxEnter ctx (Returns tt)] ++ tr2 /\
    answered_by env tr1
      [EvCreate (lang_enum_of lang) path (Returns c);
       EvStartServer c (Returns ctx); EvCtxEnter ctx (Returns tt)].

(** Every entry of the registry leads to a session stored under its own
    identifier, holding a client and a server context that the
    environment created and let be entered. *)
Definition running_inv (env : environment) (s : state) : Prop :=
  forall sid r, _sessions s !! sid = Some r ->
    exists o c ctx, heap s !! r = Some o /\ session_id o = sid /\
                    lsp o = Some c /\ server_context o = Some ctx /\
                    started_in env (trace s) (language o) (project_path o) c ctx.

(** The keys carried along are the keys of the dictionary, each once. *)
Definition keys_inv (sv : served) : Prop :=
  NoDup (sv_keys sv) /\
  forall k, k ∈ sv_keys sv <-> is_Some (_sessions (sv_state sv) !! k).

Definition lock_eqb (l1 l2 : lock_id) : bool :=
  match l1, l2 with
  | ManagerLock, ManagerLock => true
  | SessionLock r1, SessionLock r2 => Nat.eqb r1 r2
  | _, _ => false
  end.

(** Reads a stretch of the trace with [held] the lock held at its start:
    the lock held at its end, or [None] as soon as a lock is acquired
    while one is held, a lock is released that is not the one held, or
    any other call is made while the manager's lock is held. *)
Fixpoint lock_scan (held : option lock_id) (tr : list event)
    : option (option lock_id) :=
  match tr with
  | [] => Some held
  | EvAcquire l :: tr' =>
      match held with
      | None => lock_scan (Some l) tr'
      | Some _ => None
      end
  | EvRelease l :: tr' =>
      match held with
      | Some l' => if lock_eqb l l' then lock_scan None tr' else None
      | None => None
      end
  | _ :: tr' =>
      match held with
      | Some ManagerLock => None
      | _ => lock_scan held tr'
      end
  end.

(** The client starts, but entering its server context fails. *)
Definition failing_enter_env : environment :=
  {| os_path_isabs := posix_isabs;
     os_path_isdir := fun _ _ => true;
     uuid4_hex := fun _ => uuid_a;
     time_time := fun tr => Z.of_nat (length tr);
     ls_create := fun tr _ _ => Returns (length tr);
     ls_start_server := fun tr _ => Returns (length tr);
     ctx_enter := fun _ _ =>
       Raises (Exn (OtherException "MultilspyException") "server exited");
     ctx_exit := fun _ _ => Returns tt;
     ls_open_file := fun tr _ _ => Returns (length tr);
     cm_enter := fun _ _ => Returns tt;
     cm_exit := fun _ _ _ => Returns false;
     time_sleep := fun _ _ => Returns tt;
     ls_request_diagnostics := fun _ _ _ => Returns [sample_diagnostic] |}.

(** A session object as the constructor leaves it. *)
Definition fresh_session : LSPSession :=
  {| session_id := "3f2a9c04d17e"; language := "python";
     project_path := "/srv/app"; lsp := None; server_context := None;
     created_at := 0 |}.

(** The manager calls a request makes, for what they do to the state; a
    listing does to it what a lookup does. *)
Definition ops_of_request (rq : Gateway.request) : list registry_op :=
  match rq with
  | Gateway.GetRoot => []
  | Gateway.PostSessions body =>
      [OpCreate (Gateway.request_language body) (Gateway.request_project_path body)]
  | Gateway.GetDiagnostics sid file_path => [OpDiagnostics sid file_path]
  | Gateway.DeleteSession sid => [OpDelete sid]
  | Gateway.GetSessions => [OpGet ""]
  end.

(** [s'] has every object of [s], with the attributes the constructor gave
    it, and unchanged unless it is [target]. *)
Definition touches_only (target : option ref) (s s' : state) : Prop :=
  forall r o, heap s !! r = Some o ->
    (exists o', heap s' !! r = Some o' /\ same_identity o o') /\
    (target <> Some r -> heap s' !! r = Some o).

Definition no_lock_events (tr : list event) : Prop :=
  Forall (fun ev => match ev with
                    | EvAcquire _ | EvRelease _ => False
                    | _ => True
                    end) tr.

(** A stretch of trace that takes and gives back locks in order and
    calls nothing under the manager's lock. *)
Definition well_locked (chunk : list event) : Prop :=
  lock_scan None chunk = Some None.

(** The file is not there: entering the scope of [open_file] fails. *)
Definition missing_file_env : environment :=
  {| os_path_isabs := posix_isabs;
     os_path_isdir := fun _ _ => true;
     uuid4_hex := fun _ => uuid_a;
     time_time := fun tr => Z.of_nat (length tr);
     ls_create := fun tr _ _ => Returns (length tr);
     ls_start_server := fun tr _ => Returns (length tr);
     ctx_enter := fun _ _ => Returns tt;
     ctx_exit := fun _ _ => Returns tt;
     ls_open_file := fun tr _ _ => Returns (length tr);
     cm_enter := fun _ _ =>
       Raises (Exn FileNotFoundError "[Errno 2] No such file or directory");
     cm_exit := fun _ _ _ => Returns false;
     time_sleep := fun _ _ => Returns tt;
     ls_request_diagnostics := fun _ _ _ => Returns [sample_diagnostic] |}.

(** The server after one Python session over [/srv/app] was requested. *)
Definition one_served (env : environment) : served :=
  snd (Gateway.api_create_session env
         {| Gateway.request_language := "python";
            Gateway.request_project_path := "/srv/app" |} initial_served).

(** * Properties *)

(** ** Basic facts about states *)

Lemma heap_log (ev : event) (s : state) : heap (log ev s) = heap s.
Proof. reflexivity. Qed.

Lemma sessions_log (ev : event) (s : state) : _sessions (log ev s) = _sessions s.
Proof. reflexivity. Qed.

Lemma trace_log (ev : event) (s : state) : trace (log ev s) = trace s ++ [ev].
Proof. reflexivity. Qed.

Lemma state_eta (s : state) :
  {| heap := heap s; _sessions := _sessions s; trace := trace s |} = s.
Proof. by destruct s. Qed.

Lemma cleared_lsp (o : LSPSession) : lsp (cleared o) = None.
Proof. reflexivity. Qed.

Lemma cleared_server_context (o : LSPSession) : server_context (cleared o) = None.
Proof. reflexivity. Qed.

Lemma cleared_idem (o : LSPSession) : cleared (cleared o) = cleared o.
Proof. reflexivity. Qed.

(** ** LSPSession.stop *)

Section StopFacts.

Variable env : environment.

(** [stop] written out on a live reference. *)
Lemma stop_unfold (s : state) (r : ref) (o : LSPSession) :
  heap s !! r = Some o ->
  stop env r s =
    match server_context o with
    | Some ctx =>
        match ctx_exit env (trace s) ctx with
        | Raises e =>
            if is_Exception e
            then (Ret tt, {| heap := <[r := cleared o]> (heap s);
                             _sessions := _sessions s;
                             trace := trace s ++ [EvCtxExit ctx (Raises e)] |})
            else (Raise e, log (EvCtxExit ctx (Raises e)) s)
        | Returns u =>
            (Ret tt, {| heap := <[r := cleared o]> (heap s);
                        _sessions := _sessions s;
                        trace := trace s ++ [EvCtxExit ctx (Returns u)] |})
        end
    | None => (Ret tt, {| heap := <[r := cleared o]> (heap s);
                          _sessions := _sessions s; trace := trace s |})
    end.
Proof.
  intros Hr.
  assert (Hlt : r < length (heap s)) by (eapply lookup_lt_Some; eauto).
  unfold stop, bind, deref. rewrite Hr.
  destruct (server_context o) as [ctx|] eqn:Hctx.
  - unfold try_except_Exception_pass, call.
    destruct (ctx_exit env (trace s) ctx) as [u|e] eqn:Hex; simpl.
    + unfold update; simpl. rewrite Hr. simpl.
      rewrite list_lookup_insert_eq by done. rewrite list_insert_insert_eq. done.
    + destruct (is_Exception e); [|done].
      unfold update; simpl. rewrite Hr. simpl.
      rewrite list_lookup_insert_eq by done. rewrite list_insert_insert_eq. done.
  - unfold ret, update; simpl. rewrite Hr. simpl.
    rewrite list_lookup_insert_eq by done. rewrite list_insert_insert_eq. done.
Qed.

(** Whenever [stop] returns, the object is the cleared one and nothing
    else in the store or the registry moved. *)
Lemma stop_returns_inv (s s' : state) (r : ref) (o : LSPSession) :
  heap s !! r = Some o ->
  stop env r s = (Ret tt, s') ->
  heap s' = <[r := cleared o]> (heap s) /\ _sessions s' = _sessions s.
Proof.
  intros Hr Hstop. rewrite (stop_unfold s r o Hr) in Hstop.
  destruct (server_context o) as [ctx|].
  - destruct (ctx_exit env (trace s) ctx) as [u|e].
    + by inversion Hstop.
    + destruct (is_Exception e); by inversion Hstop.
  - by inversion Hstop.
Qed.

(** [stop] on an object that holds no server context touches nothing
    outside server.py and leaves a cleared object as it is. *)
Lemma stop_cleared_noop (s : state) (r : ref) (o : LSPSession) :
  heap s !! r = Some o ->
  lsp o = None -> server_context o = None ->
  stop env r s = (Ret tt, s).
Proof.
  intros Hr Hl Hc. rewrite (stop_unfold s r o Hr), Hc.
  assert (cleared o = o) as ->.
  { destruct o; simpl in *; subst; reflexivity. }
  rewrite list_insert_id by done. by rewrite state_eta.
Qed.

(** [stop] returns unless the release raised something [except Exception]
    lets through. *)
Lemma stop_returns (s : state) (r : ref) (o : LSPSession) :
  heap s !! r = Some o ->
  (forall ctx e, server_context o = Some ctx ->
     ctx_exit env (trace s) ctx = Raises e -> is_Exception e = true) ->
  exists s', stop env r s = (Ret tt, s').
Proof.
  intros Hr Hexc. rewrite (stop_unfold s r o Hr).
  destruct (server_context o) as [ctx|]; [|eauto].
  destruct (ctx_exit env (trace s) ctx) as [u|e] eqn:Hex; [eauto|].
  rewrite (Hexc ctx e eq_refl Hex). eauto.
Qed.

End StopFacts.

(** ** LSPSession.get_diagnostics on a session that is not running *)

Lemma get_diagnostics_no_client (env : environment) (s : state) (r : ref)
    (o : LSPSession) (file_path : string) :
  heap s !! r = Some o -> lsp o = None ->
  get_diagnostics env r file_path s = (Raise NotRunning, s).
Proof.
  intros Hr Hl. unfold get_diagnostics, bind, deref. rewrite Hr, Hl. reflexivity.
Qed.



(** C10: after [stop] returns, both [lsp] and [server_context] of the
    session are [None], whatever the release did; and a second [stop] then
    returns at once, in the same state, so without a second release.
    [stop] does return whenever the release returns or raises an
    [Exception]. *)
Theorem stop_clears_and_second_stop_is_noop (env : environment) (s : state)
    (r : ref) (o : LSPSession) :
  heap s !! r = Some o ->
  ((forall ctx e, server_context o = Some ctx ->
      ctx_exit env (trace s) ctx = Raises e -> is_Exception e = true) ->
   exists s', stop env r s = (Ret tt, s')) /\
  (forall s', stop env r s = (Ret tt, s') ->
     (exists o', heap s' !! r = Some o' /\
                 lsp o' = None /\ server_context o' = None) /\
     stop env r s' = (Ret tt, s') /\
     trace (snd (stop env r s')) = trace s').
Proof.
  intros Hr. split; [by apply stop_returns|].
  intros s' Hstop.
  destruct (stop_returns_inv env s s' r o Hr Hstop) as [Hh _].
  assert (Hr' : heap s' !! r = Some (cleared o)).
  { rewrite Hh. apply list_lookup_insert_eq. by eapply lookup_lt_Some. }
  assert (Hnoop : stop env r s' = (Ret tt, s'))
    by (by apply stop_cleared_noop with (o := cleared o)).
  split; [by exists (cleared o)|]. split; [done|]. by rewrite Hnoop.
Qed.

Lemma stop_clears_and_second_stop_is_noop_witness :
  (exists o', heap (one_stopped failing_teardown_env) !! 0 = Some o' /\
              lsp o' = None /\ server_context o' = None) /\
  stop failing_teardown_env 0 (one_stopped failing_teardown_env)
    = (Ret tt, one_stopped failing_teardown_env) /\
  trace (snd (stop failing_teardown_env 0 (one_stopped failing_teardown_env)))
    = trace (one_stopped failing_teardown_env).
Proof.
  refine (proj2 (stop_clears_and_second_stop_is_noop failing_teardown_env
            (one_session failing_teardown_env) 0 _ _) _ _); reflexivity.
Defined.

(** ** SessionManager.get_session and SessionManager.delete_session *)

Lemma get_session_unfold (sid : string) (s : state) :
  get_session sid s = (Ret (_sessions s !! sid), registry_accessed (_sessions s) s).
Proof.
  unfold get_session, with_lock, with_, bind, acquire, release, read_sessions,
    ret, registry_accessed, locked_registry_access, log; simpl.
  by rewrite <- app_assoc.
Qed.

Section DeleteFacts.

Variable env : environment.

(** [delete_session] written out: the entry is popped under the lock, and
    [stop] then runs in a state whose registry no longer has it. *)
Lemma delete_session_unfold (sid : string) (s : state) :
  delete_session env sid s =
    match _sessions s !! sid with
    | Some r =>
        match stop env r (registry_accessed (delete sid (_sessions s)) s) with
        | (Ret _, s') => (Ret true, s')
        | (Raise e, s') => (Raise e, s')
        | (Dangling, s') => (Dangling, s')
        end
    | None => (Ret false, registry_accessed (delete sid (_sessions s)) s)
    end.
Proof.
  unfold delete_session, with_lock, with_, bind, acquire, release,
    read_sessions, write_sessions, ret, registry_accessed,
    locked_registry_access, log; simpl.
  rewrite <- app_assoc; simpl.
  destruct (_sessions s !! sid) as [r|]; reflexivity.
Qed.

End DeleteFacts.



(** C5: an error raised by the release of the underlying client is caught
    inside [stop], which returns normally having logged only that one
    call; and [delete_session] on a registered id whose teardown raises
    such an error still returns [True], with the id gone. *)
Theorem teardown_error_is_swallowed (env : environment) (s : state) (r : ref)
    (o : LSPSession) (ctx : handle) (e : exn) :
  heap s !! r = Some o ->
  server_context o = Some ctx ->
  is_Exception e = true ->
  (ctx_exit env (trace s) ctx = Raises e ->
     exists s', stop env r s = (Ret tt, s') /\
                trace s' = trace s ++ [EvCtxExit ctx (Raises e)]) /\
  (forall sid,
     _sessions s !! sid = Some r ->
     ctx_exit env (trace s ++ locked_registry_access) ctx = Raises e ->
     exists s', delete_session env sid s = (Ret true, s') /\
                _sessions s' !! sid = None /\
                trace s' = trace s ++ locked_registry_access
                             ++ [EvCtxExit ctx (Raises e)]).
Proof.
  intros Hr Hctx He. split.
  - intros Hex. rewrite (stop_unfold env s r o Hr), Hctx, Hex, He. eauto.
  - intros sid Hsid Hex.
    rewrite delete_session_unfold, Hsid.
    rewrite (stop_unfold env _ r o) by done.
    rewrite Hctx. simpl. rewrite Hex, He.
    eexists. split; [reflexivity|]. simpl.
    split; [apply lookup_delete_eq|]. by rewrite <- app_assoc.
Qed.

Lemma teardown_error_is_swallowed_witness :
  exists s',
    delete_session failing_teardown_env "3f2a9c04d17e"
      (one_session failing_teardown_env) = (Ret true, s') /\
    _sessions s' !! "3f2a9c04d17e" = None.
Proof.
  destruct (proj2 (teardown_error_is_swallowed failing_teardown_env
                     (one_session failing_teardown_env) 0 _ 4
                     (Exn (OtherException "TimeoutError") "server did not exit")
                     eq_refl eq_refl eq_refl)
              "3f2a9c04d17e" eq_refl eq_refl) as (s' & H1 & H2 & _).
  exists s'. auto.
Defined.

(** ** LSPSession.start *)

Section StartFacts.

Variable env : environment.

(** [start] written out on a live reference. *)
Lemma start_unfold (s : state) (r : ref) (o : LSPSession) :
  heap s !! r = Some o ->
  start env r s =
    let l := lang_enum_of (language o) in
    match ls_create env (trace s) l (project_path o) with
    | Raises e => (Raise e, log (EvCreate l (project_path o) (Raises e)) s)
    | Returns c =>
        let tr1 := trace s ++ [EvCreate l (project_path o) (Returns c)] in
        match ls_start_server env tr1 c with
        | Raises e =>
            (Raise e, {| heap := <[r := set_lsp (Some c) o]> (heap s);
                         _sessions := _sessions s;
                         trace := tr1 ++ [EvStartServer c (Raises e)] |})
        | Returns ctx =>
            let tr2 := tr1 ++ [EvStartServer c (Returns ctx)] in
            let o2 := set_server_context (Some ctx) (set_lsp (Some c) o) in
            (match ctx_enter env tr2 ctx with
             | Returns u => Ret u
             | Raises e => Raise e
             end,
             {| heap := <[r := o2]> (heap s);
                _sessions := _sessions s;
                trace := tr2 ++ [EvCtxEnter ctx (ctx_enter env tr2 ctx)] |})
        end
    end.
Proof.
  intros Hr.
  assert (Hlt : r < length (heap s)) by (eapply lookup_lt_Some; eauto).
  unfold start, bind, deref, lang_enum_of. rewrite Hr. unfold call at 1.
  destruct (ls_create env (trace s) _ (project_path o)) as [c|e]; [|done].
  unfold update at 1; simpl. rewrite Hr.
  unfold self_lsp, bind, deref; simpl.
  rewrite list_lookup_insert_eq by done. simpl. unfold call at 1; simpl.
  destruct (ls_start_server env _ c) as [ctx|e]; [|done].
  unfold update; simpl.
  rewrite list_lookup_insert_eq by done. simpl.
  rewrite list_lookup_insert_eq by (by rewrite length_insert).
  rewrite list_insert_insert_eq. simpl. unfold call; simpl.
  by destruct (ctx_enter env _ ctx).
Qed.

(** [start] never touches the registry, and on a live reference is never
    [Dangling]. *)
Lemma start_sessions (s : state) (r : ref) :
  _sessions (snd (start env r s)) = _sessions s.
Proof.
  destruct (heap s !! r) as [o|] eqn:Hr.
  - rewrite (start_unfold s r o Hr); simpl.
    destruct (ls_create env _ _ _); [|done]. destruct (ls_start_server env _ _); done.
  - unfold start, bind, deref. by rewrite Hr.
Qed.

Lemma start_not_dangling (s : state) (r : ref) (o : LSPSession) :
  heap s !! r = Some o -> fst (start env r s) <> Dangling.
Proof.
  intros Hr. rewrite (start_unfold s r o Hr); simpl.
  destruct (ls_create env _ _ _); [|done].
  destruct (ls_start_server env _ _); [|done]. simpl.
  by destruct (ctx_enter env _ _).
Qed.

(** When [start] returns, the client was created, its server context was
    obtained and entered, in that order and all three successfully, and
    the session holds both. *)
Lemma start_returns_inv (s s' : state) (r : ref) (o : LSPSession) :
  heap s !! r = Some o ->
  start env r s = (Ret tt, s') ->
  exists c ctx,
    heap s' = <[r := set_server_context (Some ctx) (set_lsp (Some c) o)]> (heap s) /\
    trace s' = trace s ++
      [EvCreate (lang_enum_of (language o)) (project_path o) (Returns c);
       EvStartServer c (Returns ctx); EvCtxEnter ctx (Returns tt)].
Proof.
  intros Hr Hstart. rewrite (start_unfold s r o Hr) in Hstart. simpl in Hstart.
  destruct (ls_create env _ _ _) as [c|]; [|done].
  destruct (ls_start_server env _ _) as [ctx|]; [|done].
  destruct (ctx_enter env _ _) as [[]|] eqn:Hen; [|done].
  inversion Hstart; subst; clear Hstart. exists c, ctx. simpl.
  split; [done|]. by rewrite <- !app_assoc.
Qed.

(** [start] returns exactly when the environment lets the client be
    created, hands out its server context and lets it be entered. *)
Lemma start_returns_answers (s s' : state) (r : ref) (o : LSPSession) :
  heap s !! r = Some o ->
  start env r s = (Ret tt, s') ->
  exists c ctx,
    heap s' = <[r := set_server_context (Some ctx) (set_lsp (Some c) o)]> (heap s) /\
    trace s' = trace s ++
      [EvCreate (lang_enum_of (language o)) (project_path o) (Returns c);
       EvStartServer c (Returns ctx); EvCtxEnter ctx (Returns tt)] /\
    answered_by env (trace s)
      [EvCreate (lang_enum_of (language o)) (project_path o) (Returns c);
       EvStartServer c (Returns ctx); EvCtxEnter ctx (Returns tt)].
Proof.
  intros Hr Hstart. rewrite (start_unfold s r o Hr) in Hstart. simpl in Hstart.
  destruct (ls_create env _ _ _) as [c|] eqn:Hc; [|done].
  destruct (ls_start_server env _ _) as [ctx|] eqn:Hs; [|done].
  destruct (ctx_enter env _ _) as [[]|] eqn:Hen; [|done].
  inversion Hstart; subst; clear Hstart. exists c, ctx. simpl.
  split; [done|]. split; [by rewrite <- !app_assoc|]. by repeat split.
Qed.

Lemma start_answers_return (s : state) (r : ref) (o : LSPSession)
    (c ctx : handle) :
  heap s !! r = Some o ->
  answered_by env (trace s)
    [EvCreate (lang_enum_of (language o)) (project_path o) (Returns c);
     EvStartServer c (Returns ctx); EvCtxEnter ctx (Returns tt)] ->
  fst (start env r s) = Ret tt.
Proof.
  intros Hr (E1 & E2 & E3 & _). simpl in E1, E2, E3.
  rewrite (start_unfold s r o Hr). simpl.
  rewrite <- E1. rewrite <- E2. by rewrite <- E3.
Qed.

End StartFacts.

(** ** SessionManager.create_session *)

Section CreateFacts.

Variable env : environment.

Lemma constructed_heap (lang path : string) (s : state) :
  exists t,
    heap (constructed env lang path s) =
      heap s ++ [{| session_id := drawn_id env path s; language := lang;
                    project_path := path; lsp := None;
                    server_context := None; created_at := t |}].
Proof. eexists. reflexivity. Qed.

Lemma constructed_sessions (lang path : string) (s : state) :
  _sessions (constructed env lang path s) = _sessions s.
Proof. reflexivity. Qed.

Lemma constructed_lookup (lang path : string) (s : state) :
  exists o, heap (constructed env lang path s) !! length (heap s) = Some o /\
            session_id o = drawn_id env path s /\ language o = lang /\
            project_path o = path /\ lsp o = None /\ server_context o = None.
Proof.
  destruct (constructed_heap lang path s) as [t Ht]. rewrite Ht.
  eexists. split.
  - rewrite lookup_app_r by done. by rewrite Nat.sub_diag.
  - done.
Qed.

Lemma valid_language_test (lang : string) :
  valid_language lang ->
  negb (String.eqb lang "python" || String.eqb lang "java") = false.
Proof. by intros [-> | ->]. Qed.

Lemma invalid_language_test (lang : string) :
  ~ valid_language lang ->
  negb (String.eqb lang "python" || String.eqb lang "java") = true.
Proof.
  intros Hn. unfold valid_language in Hn.
  destruct (String.eqb_spec lang "python"); [tauto|].
  destruct (String.eqb_spec lang "java"); [tauto|]. done.
Qed.

(** [create_session] on an input that passes the three checks. *)
Lemma create_session_valid (lang path : string) (s : state) :
  valid_language lang ->
  os_path_isabs env path = true ->
  os_path_isdir env (trace s) path = true ->
  create_session env lang path s =
    match start env (length (heap s)) (constructed env lang path s) with
    | (Ret _, s1) =>
        (Ret (length (heap s)),
         registry_accessed (<[drawn_id env path s := length (heap s)]> (_sessions s1)) s1)
    | (Raise e, s1) => (Raise e, s1)
    | (Dangling, s1) => (Dangling, s1)
    end.
Proof.
  intros Hl Habs Hdir. unfold create_session.
  rewrite (valid_language_test lang Hl), Habs. simpl.
  unfold bind at 1. unfold ask at 1. rewrite Hdir. simpl.
  unfold bind at 1. unfold ask at 1. simpl.
  unfold bind at 1.
  change (LSPSession_init env _ lang path _)
    with (LSPSession_init env (drawn_id env path s) lang path
            (log (EvUuid4 (drawn_hex env path s)) (log (EvIsDir path true) s))).
  unfold constructed.
  destruct (LSPSession_init env _ lang path _) as [res s0] eqn:Hinit.
  unfold LSPSession_init, bind, ask, alloc in Hinit. simpl in Hinit.
  inversion Hinit; subst; clear Hinit. simpl.
  unfold bind at 1.
  match goal with |- context [start env ?r ?st] =>
    destruct (start env r st) as [[[]|e|] s1] end; try reflexivity.
  unfold bind, with_lock, with_, acquire, release, read_sessions,
    write_sessions, ret, registry_accessed, locked_registry_access, log; simpl.
  by rewrite <- app_assoc.
Qed.

End CreateFacts.

(** C2: on an input that passes validation, [create_session] constructs
    the session and calls [start] while the registry is still as it was.
    If [start] returns, the session is then stored under its identifier
    and returned; if [start] raises, that exception leaves
    [create_session] and the registry is the one before the call. *)
Theorem create_session_registers_after_start (env : environment)
    (lang path : string) (s : state) :
  valid_language lang ->
  os_path_isabs env path = true ->
  os_path_isdir env (trace s) path = true ->
  let r := length (heap s) in
  let sid := drawn_id env path s in
  _sessions (constructed env lang path s) = _sessions s /\
  match start env r (constructed env lang path s) with
  | (Ret _, s1) =>
      _sessions s1 = _sessions s /\
      exists s', create_session env lang path s = (Ret r, s') /\
                 _sessions s' = <[sid := r]> (_sessions s) /\
                 heap s' = heap s1 /\
                 trace s' = trace s1 ++ locked_registry_access
  | (Raise e, s1) =>
      create_session env lang path s = (Raise e, s1) /\
      _sessions s1 = _sessions s
  | (Dangling, _) => False
  end.
Proof.
  intros Hl Habs Hdir r sid. split; [reflexivity|].
  rewrite (create_session_valid env lang path s Hl Habs Hdir).
  pose proof (start_sessions env (constructed env lang path s) r) as Hreg.
  destruct (constructed_lookup env lang path s) as (o & Ho & _).
  pose proof (start_not_dangling env _ _ o Ho) as Hnd.
  fold r in Hnd, Hreg |- *.
  destruct (start env r (constructed env lang path s)) as [[[]|e|] s1];
    simpl in *.
  - split; [done|]. eexists. split; [reflexivity|]. simpl.
    by rewrite Hreg.
  - done.
  - done.
Qed.

Lemma create_session_registers_after_start_witness :
  _sessions (constructed quiet_env "python" "/srv/app" initial_state) = ∅ /\
  match start quiet_env 0 (constructed quiet_env "python" "/srv/app" initial_state) with
  | (Ret _, s1) =>
      _sessions s1 = ∅ /\
      exists s', create_session quiet_env "python" "/srv/app" initial_state
                   = (Ret 0, s') /\
                 _sessions s' = <[drawn_id quiet_env "/srv/app" initial_state := 0]> ∅ /\
                 heap s' = heap s1 /\
                 trace s' = trace s1 ++ locked_registry_access
  | (Raise e, s1) =>
      create_session quiet_env "python" "/srv/app" initial_state = (Raise e, s1) /\
      _sessions s1 = ∅
  | (Dangling, _) => False
  end.
Proof.
  exact (create_session_registers_after_start quiet_env "python" "/srv/app"
           initial_state (or_introl eq_refl) eq_refl eq_refl).
Defined.

(** C7: [create_session] raises [ValueError] when the language is neither
    "python" nor "java", when the path is not absolute, and when it is not
    a directory.  In the first two cases the state is untouched; in the
    third only the directory test was made.  In all three no session
    object was constructed, none was started and the registry is as
    before. *)
Theorem create_session_rejects_invalid_input (env : environment)
    (lang path : string) (s : state) :
  (~ valid_language lang ->
     create_session env lang path s =
       (Raise (Exn ValueError ("Unsupported language: " +:+ lang)), s)) /\
  (os_path_isabs env path = false ->
     exists msg, create_session env lang path s = (Raise (Exn ValueError msg), s)) /\
  (os_path_isdir env (trace s) path = false ->
     exists msg s',
       create_session env lang path s = (Raise (Exn ValueError msg), s') /\
       heap s' = heap s /\ _sessions s' = _sessions s /\
       (trace s' = trace s \/ trace s' = trace s ++ [EvIsDir path false])).
Proof.
  split; [|split].
  - intros Hl. unfold create_session.
    by rewrite (invalid_language_test lang Hl).
  - intros Habs. unfold create_session.
    destruct (negb (_ || _)); [by eexists|].
    rewrite Habs. by eexists.
  - intros Hdir. unfold create_session.
    destruct (negb (_ || _)); [eexists _, s; by auto|].
    destruct (negb (os_path_isabs env path)); [eexists _, s; by auto|].
    unfold bind, ask. rewrite Hdir. simpl.
    eexists _, _. split; [reflexivity|]. simpl. auto.
Qed.

Lemma create_session_rejects_invalid_input_witness :
  create_session quiet_env "rust" "/srv/app" (one_session quiet_env)
    = (Raise (Exn ValueError "Unsupported language: rust"), one_session quiet_env) /\
  exists msg,
    create_session quiet_env "java" "srv/app" (one_session quiet_env)
      = (Raise (Exn ValueError msg), one_session quiet_env).
Proof.
  pose proof (create_session_rejects_invalid_input quiet_env "rust" "/srv/app"
                (one_session quiet_env)) as [H1 _].
  pose proof (create_session_rejects_invalid_input quiet_env "java" "srv/app"
                (one_session quiet_env)) as (_ & H2 & _).
  split.
  - apply H1. intros [H | H]; discriminate H.
  - apply H2. reflexivity.
Defined.

(** C9: [create_session] returns the new session whenever the input is
    valid and the environment finds the directory, lets the client be
    created, hands out its server context and lets it be entered.
    Whenever it returns a session, the calls it made were exactly those,
    each put to the environment and answered with success; the session
    carries the language and path given and the first twelve digits of the
    UUID drawn, and holds the client the environment created and the
    server context that was entered; and a [get_session] on its
    identifier made next returns that same object. *)
Theorem create_then_get_session (env : environment) (lang path : string)
    (s : state) :
  (forall hex t c ctx,
     valid_language lang ->
     os_path_isabs env path = true ->
     answered_by env (trace s)
       [EvIsDir path true; EvUuid4 hex; EvTime t;
        EvCreate (lang_enum_of lang) path (Returns c);
        EvStartServer c (Returns ctx); EvCtxEnter ctx (Returns tt)] ->
     exists s', create_session env lang path s = (Ret (length (heap s)), s')) /\
  (forall r s',
     create_session env lang path s = (Ret r, s') ->
     exists o c ctx hex t,
       heap s' !! r = Some o /\
       session_id o = substring 0 12 hex /\
       language o = lang /\ project_path o = path /\
       lsp o = Some c /\ server_context o = Some ctx /\
       get_session (session_id o) s'
         = (Ret (Some r), registry_accessed (_sessions s') s') /\
       trace s' = trace s ++
         [EvIsDir path true; EvUuid4 hex; EvTime t;
          EvCreate (lang_enum_of lang) path (Returns c);
          EvStartServer c (Returns ctx); EvCtxEnter ctx (Returns tt)]
         ++ locked_registry_access /\
       answered_by env (trace s)
         [EvIsDir path true; EvUuid4 hex; EvTime t;
          EvCreate (lang_enum_of lang) path (Returns c);
          EvStartServer c (Returns ctx); EvCtxEnter ctx (Returns tt)]).
Proof.
  split.
  - intros hex t c ctx Hl Habs (E1 & E2 & E3 & Hstart).
    simpl in E1, E2, E3. symmetry in E1.
    rewrite (create_session_valid env lang path s Hl Habs E1).
    destruct (constructed_lookup env lang path s)
      as (o & Ho & _ & Hlang & Hpath & _).
    assert (Hret : fst (start env (length (heap s)) (constructed env lang path s))
                   = Ret tt).
    { apply (start_answers_return env _ _ o c ctx Ho).
      rewrite Hlang, Hpath. subst hex t. exact Hstart. }
    destruct (start env _ _) as [[[]|e|] s1]; simpl in Hret; try done.
    by eexists.
  - intros r s' Hcreate.
    assert (Hvalid : valid_language lang /\ os_path_isabs env path = true /\
                     os_path_isdir env (trace s) path = true).
    { unfold create_session in Hcreate.
      destruct (negb (_ || _)) eqn:Hl in Hcreate; [done|].
      destruct (negb (os_path_isabs env path)) eqn:Ha in Hcreate; [done|].
      unfold bind at 1, ask at 1 in Hcreate.
      destruct (os_path_isdir env (trace s) path) eqn:Hd; [|done].
      apply negb_false_iff in Hl, Ha. apply orb_true_iff in Hl.
      unfold valid_language. rewrite !String.eqb_eq in Hl. auto. }
    destruct Hvalid as (Hl & Habs & Hdir).
    rewrite (create_session_valid env lang path s Hl Habs Hdir) in Hcreate.
    destruct (constructed_lookup env lang path s)
      as (o & Ho & Hid & Hlang & Hpath & _).
    destruct (start env _ _) as [[[]|e|] s1] eqn:Hstart; try done.
    inversion Hcreate; subst r s'; clear Hcreate.
    destruct (start_returns_answers env _ s1 _ o Ho Hstart)
      as (c & ctx & Hheap & Htr & Hans).
    rewrite Hlang, Hpath in Htr, Hans.
    exists (set_server_context (Some ctx) (set_lsp (Some c) o)), c, ctx,
      (drawn_hex env path s),
      (time_time env ((trace s ++ [EvIsDir path true])
                        ++ [EvUuid4 (drawn_hex env path s)])).
    simpl. rewrite Hheap.
    split; [apply list_lookup_insert_eq; by eapply lookup_lt_Some|].
    split; [done|]. split; [done|]. split; [done|]. split; [done|].
    split; [done|]. split; [|split].
    + rewrite get_session_unfold. simpl. by rewrite Hid, lookup_insert_eq.
    + rewrite Htr. simpl. by rewrite <- !app_assoc.
    + split; [done|]. split; [done|]. split; [done|]. exact Hans.
Qed.

Lemma create_then_get_session_witness :
  exists s' o,
    create_session quiet_env "java" "/srv/shop" (one_session quiet_env) = (Ret 1, s') /\
    heap s' !! 1 = Some o /\ lsp o = Some 11 /\ server_context o = Some 12 /\
    fst (get_session (session_id o) s') = Ret (Some 1).
Proof.
  destruct (proj1 (create_then_get_session quiet_env "java" "/srv/shop"
                     (one_session quiet_env))
              uuid_b 10%Z 11 12 (or_intror eq_refl) eq_refl
              ltac:(vm_compute; repeat split)) as [s' Hc].
  destruct (proj2 (create_then_get_session quiet_env "java" "/srv/shop"
                     (one_session quiet_env)) 1 s' Hc)
    as (o & c & ctx & hex & t & Ho & _ & _ & _ & Hlsp & Hctx & Hg & _ & Hans).
  assert (Hc11 : c = 11 /\ ctx = 12).
  { destruct Hans as (_ & E2 & E3 & E4 & E5 & _).
    cbv beta iota delta [answers] in E2, E3, E4, E5. subst hex t.
    vm_compute in E4. injection E4 as ->.
    vm_compute in E5. injection E5 as ->. by split. }
  destruct Hc11 as [-> ->].
  exists s', o. split; [exact Hc|]. split; [exact Ho|].
  split; [exact Hlsp|]. split; [exact Hctx|]. by rewrite Hg.
Defined.

(** ** LSPSession.get_diagnostics on a running session *)

Section DiagnosticsFacts.

Variable env : environment.

(** Closes a branch of the case analysis below: the result and final
    state are read off the goal, [evs] are the events inside the lock. *)
Local Ltac leaf evs :=
  eexists _, _, evs;
  split; [reflexivity|]; split; [reflexivity|]; split; [reflexivity|];
  split; [simpl; by rewrite <- ?app_assoc|];
  split; [|simpl; repeat split; by symmetry].

(** The run of [get_diagnostics] on a session with a client: the steps of
    the specification, each answered by the environment. *)
Lemma get_diagnostics_run (s : state) (r : ref) (o : LSPSession)
    (c : handle) (file_path : string) :
  heap s !! r = Some o -> lsp o = Some c ->
  exists res s' evs,
    get_diagnostics env r file_path s = (res, s') /\
    heap s' = heap s /\ _sessions s' = _sessions s /\
    trace s' = trace s ++ [EvAcquire (SessionLock r)] ++ evs
                 ++ [EvRelease (SessionLock r)] /\
    spec_GetDiagnostics c file_path (sleep_ms (language o)) evs res /\
    answered_by env (trace s ++ [EvAcquire (SessionLock r)]) evs.
Proof.
  intros Hr Hl.
  unfold get_diagnostics, bind, deref. rewrite Hr, Hl. simpl.
  unfold with_lock, with_, acquire, release, self_lsp, bind, deref. simpl.
  rewrite Hr, Hl. simpl. unfold call. simpl.
  destruct (ls_open_file env _ c file_path) as [cm|e] eqn:Hopen; simpl.
  2:{ leaf [EvOpenFile c file_path (Raises e)]. constructor. }
  destruct (cm_enter env _ cm) as [[]|e] eqn:Hen; simpl.
  2:{ leaf [EvOpenFile c file_path (Returns cm); EvCmEnter cm (Raises e)].
      constructor. }
  rewrite Hr. simpl.
  destruct (time_sleep env _ _) as [[]|e] eqn:Hsl; simpl.
  - rewrite Hr, Hl. unfold ret. simpl.
    destruct (ls_request_diagnostics env _ c file_path) as [ds|e] eqn:Hrq; simpl.
    + idtac.
      destruct (cm_exit env _ cm None) as [b|e'] eqn:Hex; simpl.
      * leaf [EvOpenFile c file_path (Returns cm); EvCmEnter cm (Returns tt);
              EvSleep (sleep_ms (language o)) (Returns tt);
              EvRequestDiagnostics c file_path (Returns ds);
              EvCmExit cm None (Returns b)].
        exact (spec_scoped c file_path _ cm _ (Returns ds) (Returns b)
                 (spec_query _ _ _ _)).
      * leaf [EvOpenFile c file_path (Returns cm); EvCmEnter cm (Returns tt);
              EvSleep (sleep_ms (language o)) (Returns tt);
              EvRequestDiagnostics c file_path (Returns ds);
              EvCmExit cm None (Raises e')].
        exact (spec_scoped c file_path _ cm _ (Returns ds) (Raises e')
                 (spec_query _ _ _ _)).
    + destruct (cm_exit env _ cm (Some e)) as [[]|e'] eqn:Hex; simpl.
      * leaf [EvOpenFile c file_path (Returns cm); EvCmEnter cm (Returns tt);
              EvSleep (sleep_ms (language o)) (Returns tt);
              EvRequestDiagnostics c file_path (Raises e);
              EvCmExit cm (Some e) (Returns true)].
        exact (spec_scoped c file_path _ cm _ (Raises e) (Returns true)
                 (spec_query _ _ _ _)).
      * leaf [EvOpenFile c file_path (Returns cm); EvCmEnter cm (Returns tt);
              EvSleep (sleep_ms (language o)) (Returns tt);
              EvRequestDiagnostics c file_path (Raises e);
              EvCmExit cm (Some e) (Returns false)].
        exact (spec_scoped c file_path _ cm _ (Raises e) (Returns false)
                 (spec_query _ _ _ _)).
      * leaf [EvOpenFile c file_path (Returns cm); EvCmEnter cm (Returns tt);
              EvSleep (sleep_ms (language o)) (Returns tt);
              EvRequestDiagnostics c file_path (Raises e);
              EvCmExit cm (Some e) (Raises e')].
        exact (spec_scoped c file_path _ cm _ (Raises e) (Raises e')
                 (spec_query _ _ _ _)).
  - destruct (cm_exit env _ cm (Some e)) as [[]|e'] eqn:Hex; simpl.
    + leaf [EvOpenFile c file_path (Returns cm); EvCmEnter cm (Returns tt);
            EvSleep (sleep_ms (language o)) (Raises e);
            EvCmExit cm (Some e) (Returns true)].
      exact (spec_scoped c file_path _ cm _ (Raises e) (Returns true)
               (spec_wait_raises _ _ _ _)).
    + leaf [EvOpenFile c file_path (Returns cm); EvCmEnter cm (Returns tt);
            EvSleep (sleep_ms (language o)) (Raises e);
            EvCmExit cm (Some e) (Returns false)].
      exact (spec_scoped c file_path _ cm _ (Raises e) (Returns false)
               (spec_wait_raises _ _ _ _)).
    + leaf [EvOpenFile c file_path (Returns cm); EvCmEnter cm (Returns tt);
            EvSleep (sleep_ms (language o)) (Raises e);
            EvCmExit cm (Some e) (Raises e')].
      exact (spec_scoped c file_path _ cm _ (Raises e) (Raises e')
               (spec_wait_raises _ _ _ _)).
Qed.

Lemma get_diagnostics_refines_spec (s : state) (r : ref) (o : LSPSession)
    (c : handle) (file_path : string) :
  heap s !! r = Some o -> lsp o = Some c ->
  exists res s' evs,
    get_diagnostics env r file_path s = (res, s') /\
    heap s' = heap s /\ _sessions s' = _sessions s /\
    trace s' = trace s ++ [EvAcquire (SessionLock r)] ++ evs
                 ++ [EvRelease (SessionLock r)] /\
    spec_GetDiagnostics c file_path (sleep_ms (language o)) evs res.
Proof.
  intros Hr Hl.
  destruct (get_diagnostics_run s r o c file_path Hr Hl)
    as (res & s' & evs & H1 & H2 & H3 & H4 & H5 & _).
  by exists res, s', evs.
Qed.

End DiagnosticsFacts.

(** What the specification's steps entail. *)

Lemma spec_scope_always_closed (c : handle) (file_path : string) (ms : Z)
    (evs : list event) (res : result (option (list DiagnosticItem)))
    (cm : handle) :
  spec_GetDiagnostics c file_path ms evs res ->
  In (EvCmEnter cm (Returns tt)) evs ->
  exists exc closing, last evs = Some (EvCmExit cm exc closing).
Proof.
  intros Hspec Hin. destruct Hspec as [e|cm' e|cm' blk block closing Hblk].
  - simpl in Hin. destruct Hin as [Hin|[]]. discriminate Hin.
  - simpl in Hin. destruct Hin as [Hin|[Hin|[]]]; discriminate Hin.
  - assert (cm' = cm) as ->.
    { destruct Hblk; simpl in Hin;
        repeat (destruct Hin as [Hin|Hin]; [try discriminate Hin|]);
        try (by inversion Hin); by destruct Hin. }
    exists (exception_of block), closing.
    by rewrite app_assoc, last_snoc.
Qed.

Lemma spec_result_is_client_answer (c : handle) (file_path : string) (ms : Z)
    (evs : list event) (ds : list DiagnosticItem) :
  spec_GetDiagnostics c file_path ms evs (Ret (Some ds)) ->
  exists cm closing,
    evs = [EvOpenFile c file_path (Returns cm); EvCmEnter cm (Returns tt);
           EvSleep ms (Returns tt);
           EvRequestDiagnostics c file_path (Returns ds);
           EvCmExit cm None (Returns closing)].
Proof.
  intros Hspec. inversion Hspec as [| |cm blk block closing Hblk Hevs Hres].
  destruct Hblk as [e|block].
  - simpl in Hres. destruct closing as [[]|]; discriminate Hres.
  - destruct block as [ds'|e]; simpl in Hres.
    + destruct closing as [b|]; [|discriminate Hres].
      inversion Hres; subst. by exists cm, b.
    + destruct closing as [[]|]; discriminate Hres.
Qed.

Lemma spec_success_run (env : environment) (tr0 : list event) (c : handle)
    (file_path : string) (ms : Z) (evs : list event)
    (res : result (option (list DiagnosticItem)))
    (cm : handle) (ds : list DiagnosticItem) (closing : bool) :
  spec_GetDiagnostics c file_path ms evs res ->
  answered_by env tr0 evs ->
  answered_by env tr0
    [EvOpenFile c file_path (Returns cm); EvCmEnter cm (Returns tt);
     EvSleep ms (Returns tt); EvRequestDiagnostics c file_path (Returns ds);
     EvCmExit cm None (Returns closing)] ->
  res = Ret (Some ds) /\
  evs = [EvOpenFile c file_path (Returns cm); EvCmEnter cm (Returns tt);
         EvSleep ms (Returns tt); EvRequestDiagnostics c file_path (Returns ds);
         EvCmExit cm None (Returns closing)].
Proof.
  intros Hspec Hevs (H1 & H2 & H3 & H4 & H5 & _). simpl in H1, H2, H3, H4, H5.
  destruct Hspec as [e|cm' e|cm' blk block closing' Hblk].
  - destruct Hevs as (E1 & _). simpl in E1. congruence.
  - destruct Hevs as (E1 & E2 & _). simpl in E1, E2.
    assert (cm' = cm) as -> by congruence. congruence.
  - destruct Hblk as [e|block].
    + destruct Hevs as (E1 & E2 & E3 & _). simpl in E1, E2, E3.
      assert (cm' = cm) as -> by congruence. congruence.
    + destruct Hevs as (E1 & E2 & E3 & E4 & E5 & _). simpl in E1, E2, E3, E4, E5.
      assert (cm' = cm) as -> by congruence.
      assert (block = Returns ds) as -> by congruence.
      simpl in E5. assert (closing' = Returns closing) as -> by congruence.
      done.
Qed.

(** C1: on a session whose [lsp] is set, [get_diagnostics] changes neither
    the store nor the registry, and what it does outside server.py is,
    between taking and giving back the session's lock, what the
    specification lists, every call being put to the environment and
    recorded with the environment's own answer: the file is opened in the
    client; once the scope is entered it is closed again as the last step
    on every way out; inside it the wait comes first, of 2.0 s for
    "python" and of the longer 5.0 s for every other language, then the
    query.  When the environment answers all five calls with success, the
    result is the list it answered the query with; and when a list is
    returned, all five calls succeeded, in that order, and the list is the
    environment's answer to the query. *)
Theorem get_diagnostics_steps (env : environment) (s : state) (r : ref)
    (o : LSPSession) (c : handle) (file_path : string) :
  heap s !! r = Some o -> lsp o = Some c ->
  exists res s' evs,
    get_diagnostics env r file_path s = (res, s') /\
    heap s' = heap s /\ _sessions s' = _sessions s /\
    trace s' = trace s ++ [EvAcquire (SessionLock r)] ++ evs
                 ++ [EvRelease (SessionLock r)] /\
    spec_GetDiagnostics c file_path (sleep_ms (language o)) evs res /\
    answered_by env (trace s ++ [EvAcquire (SessionLock r)]) evs /\
    (forall cm, In (EvCmEnter cm (Returns tt)) evs ->
       exists exc closing, last evs = Some (EvCmExit cm exc closing)) /\
    (forall cm ds closing,
       answered_by env (trace s ++ [EvAcquire (SessionLock r)])
         [EvOpenFile c file_path (Returns cm); EvCmEnter cm (Returns tt);
          EvSleep (sleep_ms (language o)) (Returns tt);
          EvRequestDiagnostics c file_path (Returns ds);
          EvCmExit cm None (Returns closing)] ->
       res = Ret (Some ds) /\
       evs = [EvOpenFile c file_path (Returns cm); EvCmEnter cm (Returns tt);
              EvSleep (sleep_ms (language o)) (Returns tt);
              EvRequestDiagnostics c file_path (Returns ds);
              EvCmExit cm None (Returns closing)]) /\
    (forall ds, res = Ret (Some ds) ->
       exists cm closing,
         evs = [EvOpenFile c file_path (Returns cm); EvCmEnter cm (Returns tt);
                EvSleep (sleep_ms (language o)) (Returns tt);
                EvRequestDiagnostics c file_path (Returns ds);
                EvCmExit cm None (Returns closing)] /\
         ls_request_diagnostics env
           (trace s ++
              [EvAcquire (SessionLock r);
               EvOpenFile c file_path (Returns cm); EvCmEnter cm (Returns tt);
               EvSleep (sleep_ms (language o)) (Returns tt)])
           c file_path = Returns ds) /\
    (language o = "python" -> sleep_ms (language o) = 2000%Z) /\
    (language o <> "python" -> sleep_ms (language o) = 5000%Z) /\
    (sleep_ms "python" < sleep_ms "java")%Z.
Proof.
  intros Hr Hl.
  destruct (get_diagnostics_run env s r o c file_path Hr Hl)
    as (res & s' & evs & Hrun & Hheap & Hreg & Htr & Hspec & Hans).
  exists res, s', evs. repeat (split; [done|]).
  split; [intros cm; by eapply spec_scope_always_closed|].
  split; [intros cm ds closing; by eapply spec_success_run|].
  split.
  { intros ds ->.
    destruct (spec_result_is_client_answer _ _ _ _ _ Hspec) as (cm & closing & ->).
    exists cm, closing. split; [done|].
    destruct Hans as (_ & _ & _ & E4 & _). simpl in E4.
    rewrite <- !app_assoc in E4. by symmetry. }
  split; [by intros ->|]. split; [|done].
  intros Hne. unfold sleep_ms. by destruct (String.eqb_spec (language o) "python").
Qed.

Lemma get_diagnostics_steps_witness :
  exists s',
    get_diagnostics quiet_env 0 "app/main.py" (one_session quiet_env)
      = (Ret (Some [sample_diagnostic]), s') /\
    trace s' = trace (one_session quiet_env) ++
      [EvAcquire (SessionLock 0);
       EvOpenFile 3 "app/main.py" (Returns 9); EvCmEnter 9 (Returns tt);
       EvSleep 2000 (Returns tt);
       EvRequestDiagnostics 3 "app/main.py" (Returns [sample_diagnostic]);
       EvCmExit 9 None (Returns false);
       EvRelease (SessionLock 0)].
Proof.
  destruct (get_diagnostics_steps quiet_env (one_session quiet_env) 0
              {| session_id := "3f2a9c04d17e"; language := "python";
                 project_path := "/srv/app"; lsp := Some 3;
                 server_context := Some 4; created_at := 2 |}
              3 "app/main.py"
              ltac:(vm_compute; reflexivity) eq_refl)
    as (res & s' & evs & Hrun & _ & _ & Htr & _ & _ & _ & Hok & _).
  destruct (Hok 9 [sample_diagnostic] false) as [-> ->].
  - vm_compute. repeat split.
  - exists s'. split; [exact Hrun|exact Htr].
Defined.

(** A session whose [start] raised after the client object was created
    keeps that object in [lsp]: the test of [get_diagnostics] lets it
    through, and the client is called.  [create_session] never hands out
    or registers such a session. *)
Remark get_diagnostics_after_failed_start (env : environment) (s s' : state)
    (r : ref) (o : LSPSession) (c : handle) (e : exn) (file_path : string) :
  heap s !! r = Some o ->
  ls_create env (trace s) (lang_enum_of (language o)) (project_path o) = Returns c ->
  start env r s = (Raise e, s') ->
  exists out rest,
    trace (snd (get_diagnostics env r file_path s'))
      = trace s' ++ EvAcquire (SessionLock r) :: EvOpenFile c file_path out :: rest.
Proof.
  intros Hr Hcreate Hstart.
  assert (Hr' : exists o', heap s' !! r = Some o' /\ lsp o' = Some c).
  { assert (Hlt : r < length (heap s)) by (by eapply lookup_lt_Some).
    rewrite (start_unfold env s r o Hr) in Hstart. simpl in Hstart.
    rewrite Hcreate in Hstart.
    destruct (ls_start_server env _ c) as [ctx|e1].
    - destruct (ctx_enter env _ ctx); inversion Hstart; subst; simpl.
      eexists. by rewrite list_lookup_insert_eq.
    - inversion Hstart; subst; simpl.
      eexists. by rewrite list_lookup_insert_eq. }
  destruct Hr' as (o' & Hr' & Hl').
  destruct (get_diagnostics_refines_spec env s' r o' c file_path Hr' Hl')
    as (res & s'' & evs & Hrun & _ & _ & Htr & Hspec).
  rewrite Hrun. simpl. rewrite Htr.
  destruct Hspec as [e1|cm e1|cm blk block closing Hblk]; simpl; eauto.
Qed.

(** ** Session identifiers over sequences of registry operations *)

Lemma drawn_uuids_app (tr1 tr2 : list event) :
  drawn_uuids (tr1 ++ tr2) = drawn_uuids tr1 ++ drawn_uuids tr2.
Proof.
  induction tr1 as [|ev tr1 IH]; [done|].
  destruct ev; simpl; by rewrite ?IH.
Qed.

Lemma ids_insert (l : list LSPSession) (r : ref) (o o' : LSPSession) :
  l !! r = Some o -> session_id o' = session_id o ->
  session_id <$> <[r := o']> l = session_id <$> l.
Proof.
  intros Hr Hid. rewrite list_fmap_insert. apply list_insert_id.
  by rewrite list_lookup_fmap, Hr, Hid.
Qed.

Lemma same_ids_refl (s : state) : same_ids s s.
Proof. by split. Qed.

Lemma same_ids_trans (s1 s2 s3 : state) :
  same_ids s1 s2 -> same_ids s2 s3 -> same_ids s1 s3.
Proof. intros [H1 H2] [H3 H4]. split; congruence. Qed.

Section IdFacts.

Variable env : environment.

Lemma start_same_ids (s : state) (r : ref) :
  same_ids s (snd (start env r s)).
Proof.
  destruct (heap s !! r) as [o|] eqn:Hr.
  - rewrite (start_unfold env s r o Hr). simpl. unfold same_ids, created_ids.
    destruct (ls_create env _ _ _) as [c|e]; simpl.
    + destruct (ls_start_server env _ _) as [ctx|e]; simpl.
      * rewrite (ids_insert _ r o) by done.
        by rewrite !drawn_uuids_app, !app_nil_r.
      * rewrite (ids_insert _ r o) by done.
        by rewrite !drawn_uuids_app, !app_nil_r.
    + by rewrite drawn_uuids_app, app_nil_r.
  - unfold start, bind, deref. rewrite Hr. apply same_ids_refl.
Qed.

Lemma stop_same_ids (s : state) (r : ref) :
  same_ids s (snd (stop env r s)).
Proof.
  destruct (heap s !! r) as [o|] eqn:Hr.
  - rewrite (stop_unfold env s r o Hr). unfold same_ids, created_ids.
    destruct (server_context o) as [ctx|]; simpl.
    + destruct (ctx_exit env _ _) as [u|e]; simpl.
      * rewrite (ids_insert _ r o) by done.
        by rewrite drawn_uuids_app, app_nil_r.
      * destruct (is_Exception e); simpl.
        -- rewrite (ids_insert _ r o) by done.
           by rewrite drawn_uuids_app, app_nil_r.
        -- by rewrite drawn_uuids_app, app_nil_r.
    + by rewrite (ids_insert _ r o).
  - unfold stop, bind, deref. rewrite Hr. apply same_ids_refl.
Qed.

Lemma spec_GetDiagnostics_draws_nothing (c : handle) (file_path : string)
    (ms : Z) (evs : list event) (res : result (option (list DiagnosticItem))) :
  spec_GetDiagnostics c file_path ms evs res -> drawn_uuids evs = [].
Proof.
  intros [e|cm e|cm blk block closing Hblk]; [done|done|].
  by destruct Hblk.
Qed.

Lemma get_diagnostics_same_ids (s : state) (r : ref) (file_path : string) :
  same_ids s (snd (get_diagnostics env r file_path s)) /\
  _sessions (snd (get_diagnostics env r file_path s)) = _sessions s.
Proof.
  destruct (heap s !! r) as [o|] eqn:Hr.
  - destruct (lsp o) as [c|] eqn:Hl.
    + destruct (get_diagnostics_refines_spec env s r o c file_path Hr Hl)
        as (res & s' & evs & Hrun & Hheap & Hreg & Htr & Hspec).
      rewrite Hrun. simpl. split; [|done]. unfold same_ids, created_ids.
      rewrite Hheap, Htr, !drawn_uuids_app.
      rewrite (spec_GetDiagnostics_draws_nothing _ _ _ _ _ Hspec). simpl.
      by rewrite app_nil_r.
    + rewrite (get_diagnostics_no_client env s r o file_path Hr Hl).
      split; [apply same_ids_refl|done].
  - unfold get_diagnostics, bind, deref. rewrite Hr.
    split; [apply same_ids_refl|done].
Qed.

End IdFacts.

Lemma registry_inv_same_ids (s s' : state) :
  same_ids s s' -> _sessions s' = _sessions s ->
  registry_inv s -> registry_inv s'.
Proof.
  intros [Hids Hdr] Hreg [Hinv1 Hinv2]. unfold registry_inv.
  rewrite Hids, Hdr, Hreg. by split.
Qed.

Lemma registry_inv_accessed (s : state) :
  registry_inv s -> registry_inv (registry_accessed (_sessions s) s).
Proof.
  apply registry_inv_same_ids; [|done]. split; [done|]. simpl.
  by rewrite drawn_uuids_app, app_nil_r.
Qed.

Section InvFacts.

Variable env : environment.

Lemma registry_inv_constructed (lang path : string) (s : state) :
  registry_inv s ->
  created_ids (constructed env lang path s) = created_ids s ++ [drawn_id env path s] /\
  drawn_uuids (trace (constructed env lang path s))
    = drawn_uuids (trace s) ++ [drawn_hex env path s].
Proof.
  intros _. unfold created_ids. split.
  - destruct (constructed_heap env lang path s) as [t ->].
    by rewrite fmap_app.
  - simpl. by rewrite !drawn_uuids_app, !app_nil_r.
Qed.

Lemma create_session_inv (lang path : string) (s : state) :
  registry_inv s -> registry_inv (snd (create_session env lang path s)).
Proof.
  intros Hinv.
  destruct (negb (String.eqb lang "python" || String.eqb lang "java")) eqn:Hl.
  { unfold create_session. by rewrite Hl. }
  destruct (os_path_isabs env path) eqn:Habs.
  2:{ unfold create_session. by rewrite Hl, Habs. }
  destruct (os_path_isdir env (trace s) path) eqn:Hdir.
  2:{ unfold create_session. rewrite Hl, Habs. simpl.
      unfold bind, ask. rewrite Hdir. simpl.
      revert Hinv. apply registry_inv_same_ids; [|done].
      split; [done|]. simpl. by rewrite drawn_uuids_app, app_nil_r. }
  assert (Hvalid : valid_language lang).
  { apply negb_false_iff, orb_true_iff in Hl. unfold valid_language.
    by rewrite !String.eqb_eq in Hl. }
  rewrite (create_session_valid env lang path s Hvalid Habs Hdir).
  destruct (registry_inv_constructed lang path s Hinv) as [Hc1 Hc2].
  destruct (start_same_ids env (constructed env lang path s) (length (heap s)))
    as [Hs1 Hs2].
  pose proof (start_sessions env (constructed env lang path s) (length (heap s)))
    as Hs3.
  destruct Hinv as [Hinv1 Hinv2].
  assert (Hbase : registry_inv (snd (start env (length (heap s))
                                       (constructed env lang path s)))).
  { split.
    - rewrite Hs1, Hs2, Hc1, Hc2, fmap_app, Hinv1. done.
    - intros sid r. rewrite Hs3, Hs1, Hc1. simpl. intros Hsid.
      apply lookup_app_l_Some. by apply Hinv2. }
  destruct (start env _ _) as [[[]|e|] s1]; simpl in *; [|done|done].
  destruct Hbase as [Hb1 Hb2]. split.
  - unfold created_ids in *. simpl. by rewrite drawn_uuids_app, app_nil_r.
  - intros sid r. unfold created_ids in *. simpl.
    rewrite Hs3. destruct (decide (drawn_id env path s = sid)) as [<-|Hne].
    + rewrite lookup_insert_eq. intros [= <-].
      rewrite Hs1, Hc1. rewrite lookup_app_r by (by rewrite length_fmap).
      by rewrite length_fmap, Nat.sub_diag.
    + rewrite lookup_insert_ne by done. intros Hsid.
      apply Hb2. by rewrite Hs3.
Qed.

Lemma delete_session_inv (sid : string) (s : state) :
  registry_inv s -> registry_inv (snd (delete_session env sid s)).
Proof.
  intros [Hinv1 Hinv2].
  assert (Hpop : registry_inv (registry_accessed (delete sid (_sessions s)) s)).
  { split.
    - unfold created_ids. simpl. by rewrite drawn_uuids_app, app_nil_r.
    - intros k r. simpl. intros Hk. apply Hinv2.
      by apply lookup_delete_Some in Hk as [_ Hk]. }
  rewrite delete_session_unfold.
  destruct (_sessions s !! sid) as [r|]; [|done].
  pose proof (stop_same_ids env (registry_accessed (delete sid (_sessions s)) s) r)
    as Hsame.
  assert (Hreg : _sessions (snd (stop env r
                    (registry_accessed (delete sid (_sessions s)) s)))
                 = delete sid (_sessions s)).
  { destruct (heap s !! r) as [o|] eqn:Hr.
    - rewrite (stop_unfold env _ r o) by done. simpl.
      destruct (server_context o); [|done].
      destruct (ctx_exit env _ _) as [|e]; [done|]. by destruct (is_Exception e).
    - unfold stop, bind, deref. simpl. by rewrite Hr. }
  pose proof (registry_inv_same_ids _ _ Hsame Hreg Hpop) as Hfinal.
  by destruct (stop env r _) as [[[]|e|] s'].
Qed.

Lemma run_op_inv (op : registry_op) (s : state) :
  registry_inv s -> registry_inv (run_op env op s).
Proof.
  intros Hinv. destruct op as [lang path|sid|sid|sid file_path]; unfold run_op.
  - by apply create_session_inv.
  - rewrite get_session_unfold. by apply registry_inv_accessed.
  - by apply delete_session_inv.
  - rewrite get_session_unfold.
    destruct (_sessions s !! sid) as [r|]; [|by apply registry_inv_accessed].
    destruct (get_diagnostics_same_ids env
                (registry_accessed (_sessions s) s) r file_path) as [Hsame Hreg].
    eapply registry_inv_same_ids; [exact Hsame|exact Hreg|].
    by apply registry_inv_accessed.
Qed.

Lemma run_ops_inv (ops : list registry_op) (s : state) :
  registry_inv s -> registry_inv (run_ops env ops s).
Proof.
  revert s. induction ops as [|op ops IH]; intros s Hinv; [done|].
  simpl. apply IH. by apply run_op_inv.
Qed.

End InvFacts.

Lemma registry_inv_initial : registry_inv initial_state.
Proof. split; [done|]. intros sid r. simpl. by rewrite lookup_empty. Qed.


(** C8, as the code has it: after any sequence of registry operations the
    identifiers of the sessions constructed so far are exactly the
    12-character prefixes of the UUIDs drawn so far, in order, and every
    registry entry leads to a session that carries its key as identifier
    (one session per registered id).  Hence, as long as the prefixes drawn
    are pairwise distinct, distinct sessions have distinct identifiers;
    and a creation whose identifier was not given out before leaves every
    existing registry entry in place. *)
Theorem session_ids_follow_drawn_uuids (env : environment)
    (ops : list registry_op) :
  let s := run_ops env ops initial_state in
  created_ids s = substring 0 12 <$> drawn_uuids (trace s) /\
  (forall sid r, _sessions s !! sid = Some r ->
     exists o, heap s !! r = Some o /\ session_id o = sid) /\
  (NoDup (substring 0 12 <$> drawn_uuids (trace s)) ->
   forall r1 r2 o1 o2,
     heap s !! r1 = Some o1 -> heap s !! r2 = Some o2 ->
     session_id o1 = session_id o2 -> r1 = r2) /\
  (forall lang path r s',
     create_session env lang path s = (Ret r, s') ->
     drawn_id env path s ∉ created_ids s ->
     _sessions s' !! drawn_id env path s = Some r /\
     forall sid r0, _sessions s !! sid = Some r0 -> _sessions s' !! sid = Some r0).
Proof.
  intros s.
  destruct (run_ops_inv env ops initial_state registry_inv_initial)
    as [Hinv1 Hinv2]. fold s in Hinv1, Hinv2.
  split; [done|]. split; [|split].
  - intros sid r Hsid. specialize (Hinv2 sid r Hsid).
    unfold created_ids in Hinv2. rewrite list_lookup_fmap in Hinv2.
    destruct (heap s !! r) as [o|]; [|done].
    exists o. split; [done|]. by inversion Hinv2.
  - rewrite <- Hinv1. intros Hnd r1 r2 o1 o2 H1 H2 Hid.
    apply (NoDup_lookup _ r1 r2 (session_id o1) Hnd); unfold created_ids;
      rewrite list_lookup_fmap.
    + by rewrite H1.
    + by rewrite H2, Hid.
  - intros lang path r s' Hcreate Hfresh.
    assert (Hvalid : valid_language lang /\ os_path_isabs env path = true /\
                     os_path_isdir env (trace s) path = true).
    { unfold create_session in Hcreate.
      destruct (negb (_ || _)) eqn:Hl in Hcreate; [done|].
      destruct (negb (os_path_isabs env path)) eqn:Ha in Hcreate; [done|].
      unfold bind at 1, ask at 1 in Hcreate.
      destruct (os_path_isdir env (trace s) path) eqn:Hd; [|done].
      apply negb_false_iff in Hl, Ha. apply orb_true_iff in Hl.
      unfold valid_language. rewrite !String.eqb_eq in Hl. auto. }
    destruct Hvalid as (Hl & Habs & Hdir).
    rewrite (create_session_valid env lang path s Hl Habs Hdir) in Hcreate.
    pose proof (start_sessions env (constructed env lang path s) (length (heap s)))
      as Hreg.
    destruct (start env _ _) as [[[]|e|] s1]; try done.
    inversion Hcreate; subst r s'; clear Hcreate. simpl in *.
    split; [by rewrite lookup_insert_eq|].
    intros sid r0 Hsid. rewrite Hreg.
    rewrite lookup_insert_ne; [done|]. intros <-.
    apply Hfresh. apply list_elem_of_lookup. exists r0. by apply Hinv2.
Qed.

Lemma session_ids_follow_drawn_uuids_witness :
  created_ids (both_created quiet_env) = ["3f2a9c04d17e"; "b81e55a07c3d"] /\
  (forall r1 r2 o1 o2,
     heap (both_created quiet_env) !! r1 = Some o1 ->
     heap (both_created quiet_env) !! r2 = Some o2 ->
     session_id o1 = session_id o2 -> r1 = r2).
Proof.
  split.
  - exact (proj1 (session_ids_follow_drawn_uuids quiet_env
             [OpCreate "python" "/srv/app"; OpCreate "java" "/srv/shop"])).
  - refine (proj1 (proj2 (proj2 (session_ids_follow_drawn_uuids quiet_env
              [OpCreate "python" "/srv/app"; OpCreate "java" "/srv/shop"]))) _).
    vm_compute. apply NoDup_cons. split; [|apply NoDup_singleton].
    intros H. apply list_elem_of_In in H. simpl in H.
    destruct H as [H|[]]. discriminate H.
Defined.

(** C8, as the claim has it, fails: two UUIDs that agree on their first
    twelve digits give two sessions one identifier, and the second creation
    puts its session in the place of the first, which is still running. *)
Lemma session_ids_can_collide :
  drawn_uuids (trace (both_created colliding_env)) = [uuid_a; uuid_a'] /\
  uuid_a <> uuid_a' /\
  created_ids (both_created colliding_env) = ["3f2a9c04d17e"; "3f2a9c04d17e"] /\
  ~ NoDup (created_ids (both_created colliding_env)) /\
  _sessions (first_created colliding_env) !! "3f2a9c04d17e" = Some 0 /\
  _sessions (both_created colliding_env) !! "3f2a9c04d17e" = Some 1 /\
  lsp <$> heap (both_created colliding_env) !! 0 = Some (Some 3).
Proof.
  repeat split; try (vm_compute; reflexivity).
  - discriminate.
  - intros Hnd.
    assert (Hids : created_ids (both_created colliding_env)
                   = ["3f2a9c04d17e"; "3f2a9c04d17e"]) by (vm_compute; reflexivity).
    rewrite Hids in Hnd. apply NoDup_cons in Hnd as [Hnotin _].
    apply Hnotin. left.
Qed.

(** ** Threads running get_diagnostics side by side *)

Module InterleavingFacts.

Import Interleaving.

Lemma thread_step_kind (o : LSPSession) (r : ref) (file_path : string)
    (p p' : pc) (held held' : gset nat) (evs : list event) :
  thread_step o r file_path p held evs p' held' ->
  (inside_lock p = inside_lock p' /\ held' = held) \/
  (inside_lock p = false /\ inside_lock p' = true /\
   (r ∉ held) /\ held' = {[r]} ∪ held) \/
  (inside_lock p = true /\ inside_lock p' = false /\ held' = held ∖ {[r]}).
Proof.
  intros Hstep. destruct Hstep; try (left; by split).
  - right; left. done.
  - left. split; [|done]. by destruct out.
  - left. split; [|done]. by destruct out.
  - left. split; [|done]. by destruct out.
  - right; right. done.
Qed.

Lemma lock_inv_initial (h : list LSPSession) (calls : list (ref * string)) :
  lock_inv (initial h calls).
Proof.
  assert (Hout : forall i t, c_threads (initial h calls) !! i = Some t ->
                             inside_lock (th_pc t) = false).
  { intros i t. simpl. rewrite list_lookup_fmap.
    destruct (calls !! i); [|done]. by intros [= <-]. }
  split; [|split].
  - intros i t Ht Hin. by rewrite (Hout i t Ht) in Hin.
  - intros i j ti tj Hi _ Hin. by rewrite (Hout i ti Hi) in Hin.
  - intros r Hr. simpl in Hr. set_solver.
Qed.

Lemma lock_inv_step (cfg cfg' : config) :
  step cfg cfg' -> lock_inv cfg -> lock_inv cfg'.
Proof.
  intros Hstep (I1 & I2 & I3).
  destruct Hstep as [cfg i t o evs p' held' Hi Ho Hts].
  assert (Hlt : i < length (c_threads cfg)) by (by eapply lookup_lt_Some).
  set (t' := Thread (th_session t) (th_file t) p').
  assert (Hlook : forall j tj, <[i := t']> (c_threads cfg) !! j = Some tj ->
            (j = i /\ tj = t') \/ (j <> i /\ c_threads cfg !! j = Some tj)).
  { intros j tj. destruct (decide (j = i)) as [->|Hne].
    - rewrite list_lookup_insert_eq by done. intros [= <-]. by left.
    - rewrite list_lookup_insert_ne by done. by right. }
  destruct (thread_step_kind _ _ _ _ _ _ _ _ Hts)
    as [[Hsame ->]|[(Hout & Hin' & Hfree & ->)|(Hin & Hout' & ->)]].
  - (* the lock is neither taken nor given back *)
    split; [|split]; simpl.
    + intros j tj Hj Hinj. destruct (Hlook j tj Hj) as [[-> ->]|[Hne Hj']].
      * simpl in *. apply (I1 i t Hi). by rewrite Hsame.
      * by apply (I1 j tj).
    + intros j k tj tk Hj Hk Hinj Hink Hs.
      destruct (Hlook j tj Hj) as [[-> ->]|[Hnej Hj']];
        destruct (Hlook k tk Hk) as [[-> ->]|[Hnek Hk']]; simpl in *.
      * done.
      * apply (I2 i k t tk); try done. by rewrite Hsame.
      * apply (I2 j i tj t); try done. by rewrite Hsame.
      * by apply (I2 j k tj tk).
    + intros r Hr. destruct (I3 r Hr) as (k & tk & Hk & Hs & Hink).
      destruct (decide (k = i)) as [->|Hne].
      * exists i, t'. rewrite list_lookup_insert_eq by done.
        assert (tk = t) as -> by congruence.
        split; [done|]. split; [done|]. simpl. by rewrite <- Hsame.
      * exists k, tk. by rewrite list_lookup_insert_ne.
  - (* the lock is taken *)
    split; [|split]; simpl.
    + intros j tj Hj Hinj. destruct (Hlook j tj Hj) as [[-> ->]|[Hne Hj']].
      * simpl. set_solver.
      * specialize (I1 j tj Hj' Hinj). set_solver.
    + intros j k tj tk Hj Hk Hinj Hink Hs.
      destruct (Hlook j tj Hj) as [[-> ->]|[Hnej Hj']];
        destruct (Hlook k tk Hk) as [[-> ->]|[Hnek Hk']]; simpl in *.
      * done.
      * exfalso. apply Hfree. rewrite Hs. by apply (I1 k tk).
      * exfalso. apply Hfree. rewrite <- Hs. by apply (I1 j tj).
      * by apply (I2 j k tj tk).
    + intros r Hr. destruct (decide (r = th_session t)) as [->|Hne].
      * exists i, t'. by rewrite list_lookup_insert_eq.
      * assert (Hr' : r ∈ c_held cfg).
        { apply elem_of_union in Hr as [Hr|Hr]; [|done].
          by apply elem_of_singleton in Hr. }
        destruct (I3 r Hr') as (k & tk & Hk & Hs & Hink).
        exists k, tk. rewrite list_lookup_insert_ne; [done|].
        intros ->. congruence.
  - (* the lock is given back *)
    split; [|split]; simpl.
    + intros j tj Hj Hinj. destruct (Hlook j tj Hj) as [[-> ->]|[Hne Hj']].
      * simpl in Hinj. congruence.
      * specialize (I1 j tj Hj' Hinj).
        assert (th_session tj <> th_session t).
        { intros Hs. apply Hne. by apply (I2 j i tj t). }
        set_solver.
    + intros j k tj tk Hj Hk Hinj Hink Hs.
      destruct (Hlook j tj Hj) as [[-> ->]|[Hnej Hj']];
        destruct (Hlook k tk Hk) as [[-> ->]|[Hnek Hk']]; simpl in *;
        try congruence.
      by apply (I2 j k tj tk).
    + intros r Hr.
      apply elem_of_difference in Hr as [Hr' Hne].
      rewrite elem_of_singleton in Hne.
      destruct (I3 r Hr') as (k & tk & Hk & Hs & Hink).
      exists k, tk. rewrite list_lookup_insert_ne; [done|].
      intros ->. congruence.
Qed.

Lemma lock_inv_rtc (cfg cfg' : config) :
  rtc step cfg cfg' -> lock_inv cfg -> lock_inv cfg'.
Proof.
  induction 1 as [|cfg1 cfg2 cfg3 Hstep _ IH]; [done|].
  intros Hinv. apply IH. by apply (lock_inv_step cfg1 cfg2).
Qed.

Lemma lock_inv_reachable (h : list LSPSession) (calls : list (ref * string))
    (cfg : config) :
  reachable h calls cfg -> lock_inv cfg.
Proof.
  intros Hreach. apply (lock_inv_rtc _ _ Hreach), lock_inv_initial.
Qed.

(** *** One thread alone is the sequential method *)

Lemma thread_run_app (o : LSPSession) (r : ref) (file_path : string)
    (p p1 p2 : pc) (held held1 held2 : gset nat) (evs1 evs2 : list event) :
  thread_run o r file_path p held evs1 p1 held1 ->
  thread_run o r file_path p1 held1 evs2 p2 held2 ->
  thread_run o r file_path p held (evs1 ++ evs2) p2 held2.
Proof.
  induction 1 as [|p held evs0 p0 held0 evs1 p1 held1 Hstep _ IH]; [done|].
  intros Hrun. rewrite <- app_assoc. eapply run_step; [exact Hstep|]. by apply IH.
Qed.

Lemma thread_run_steps (o : LSPSession) (r : ref) (file_path : string)
    (p p' : pc) (held held' : gset nat) (evs : list event) (i : nat) :
  thread_run o r file_path p held evs p' held' ->
  forall h threads tr,
    threads !! i = Some (Thread r file_path p) ->
    h !! r = Some o ->
    rtc step (Config h held threads tr)
      (Config h held' (<[i := Thread r file_path p']> threads)
         (tr ++ ((fun ev => (i, ev)) <$> evs))).
Proof.
  induction 1 as [p held|p held evs1 p1 held1 evs2 p2 held2 Hstep _ IH];
    intros h threads tr Hi Ho.
  - rewrite list_insert_id by done. simpl. rewrite app_nil_r. apply rtc_refl.
  - eapply rtc_l.
    { by eapply (step_thread (Config h held threads tr) i
                   (Thread r file_path p) o evs1 p1 held1). }
    simpl.
    assert (Hlt : i < length threads) by (by eapply lookup_lt_Some).
    specialize (IH h (<[i := Thread r file_path p1]> threads)
                  (tr ++ ((fun ev => (i, ev)) <$> evs1))
                  (list_lookup_insert_eq _ _ _ Hlt) Ho).
    by rewrite list_insert_insert_eq, <- app_assoc, <- fmap_app in IH.
Qed.

Lemma after_exit_spec (block : outcome (list DiagnosticItem))
    (closing : outcome bool) :
  after_exit block closing = spec_scope_result block closing.
Proof. by destruct block, closing as [[]|]. Qed.

(** The steps of the specification are a run from the end of the acquire
    to the start of the release. *)
Lemma spec_thread_run (o : LSPSession) (r : ref) (file_path : string)
    (c : handle) (held : gset nat) (evs : list event)
    (res : result (option (list DiagnosticItem))) :
  lsp o = Some c ->
  spec_GetDiagnostics c file_path (sleep_ms (language o)) evs res ->
  thread_run o r file_path AtOpenFile held evs (AtRelease res) held.
Proof.
  intros Hl [e|cm e|cm blk block closing Hblk].
  - apply (run_step o r file_path _ _ [_] _ _ []
             _ _ (step_open_file o r file_path held c (Raises e) Hl)).
    apply run_done.
  - apply (run_step o r file_path _ _ [_] _ _ [_]
             _ _ (step_open_file o r file_path held c (Returns cm) Hl)).
    apply (run_step o r file_path _ _ [_] _ _ []
             _ _ (step_enter o r file_path held cm (Raises e))).
    apply run_done.
  - rewrite <- after_exit_spec.
    apply (run_step o r file_path _ _ [_] _ _ (_ :: blk ++ [_])
             _ _ (step_open_file o r file_path held c (Returns cm) Hl)).
    apply (run_step o r file_path _ _ [_] _ _ (blk ++ [_])
             _ _ (step_enter o r file_path held cm (Returns tt))).
    destruct Hblk as [e|block].
    + apply (run_step o r file_path _ _ [_] _ _ [_]
               _ _ (step_sleep o r file_path held cm (Raises e))).
      apply (run_step o r file_path _ _ [_] _ _ []
               _ _ (step_close o r file_path held cm (Raises e) closing)).
      apply run_done.
    + apply (run_step o r file_path _ _ [_] _ _ [_; _]
               _ _ (step_sleep o r file_path held cm (Returns tt))).
      apply (run_step o r file_path _ _ [_] _ _ [_]
               _ _ (step_request o r file_path held cm c block Hl)).
      apply (run_step o r file_path _ _ [_] _ _ []
               _ _ (step_close o r file_path held cm block closing)).
      apply run_done.
Qed.

(** What the sequential [get_diagnostics] does on a live session is what
    a single thread does from its call to its return. *)
Lemma get_diagnostics_is_a_run (env : environment) (s : state) (r : ref)
    (o : LSPSession) (file_path : string) :
  heap s !! r = Some o ->
  exists evs,
    trace (snd (get_diagnostics env r file_path s)) = trace s ++ evs /\
    reachable (heap s) [(r, file_path)]
      (Config (heap s) ∅
         [Thread r file_path (Finished (fst (get_diagnostics env r file_path s)))]
         ((fun ev => (0, ev)) <$> evs)).
Proof.
  intros Hr. unfold reachable, initial. simpl.
  destruct (lsp o) as [c|] eqn:Hl.
  - destruct (get_diagnostics_refines_spec env s r o c file_path Hr Hl)
      as (res & s' & evs & Hrun & _ & _ & Htr & Hspec).
    rewrite Hrun. simpl.
    exists ([EvAcquire (SessionLock r)] ++ evs ++ [EvRelease (SessionLock r)]).
    split; [done|].
    assert (Hfree : ({[r]} ∪ ∅) ∖ {[r]} = (∅ : gset nat)).
    { apply set_eq. intros x.
      rewrite elem_of_difference, elem_of_union, elem_of_singleton, elem_of_empty.
      tauto. }
    assert (Hfull : thread_run o r file_path AtCheck ∅
              ([] ++ [EvAcquire (SessionLock r)] ++ evs ++ [EvRelease (SessionLock r)] ++ [])
              (Finished res) ∅).
    { eapply run_step; [by eapply step_running|].
      eapply run_step; [apply step_acquire, not_elem_of_empty|].
      eapply thread_run_app; [by apply (spec_thread_run o r file_path c)|].
      rewrite <- Hfree at 2.
      eapply run_step; [apply step_release|apply run_done]. }
    simpl in Hfull.
    by apply (thread_run_steps o r file_path _ _ _ _ _ 0 Hfull
                (heap s) [Thread r file_path AtCheck] []).
  - rewrite (get_diagnostics_no_client env s r o file_path Hr Hl). simpl.
    exists []. split; [by rewrite app_nil_r|].
    apply rtc_once.
    by apply (step_thread (Config (heap s) ∅ [Thread r file_path AtCheck] [])
                0 (Thread r file_path AtCheck) o [] _ ∅
                eq_refl Hr (step_not_running o r file_path ∅ Hl)).
Qed.

Lemma on_client_inside_lock (p : pc) :
  on_client p = true -> inside_lock p = true.
Proof. by destruct p. Qed.

(** C3: at any point of any interleaving of [get_diagnostics] calls, two
    callers on one session are never both between the acquire and the
    release of its lock, so never both inside a call to its client.  The
    locks of other sessions do not hold a caller back: one that waits for
    the lock of its session moves on as soon as no caller on that same
    session is inside it; and two callers on two running sessions can be
    inside calls to their clients at the same time. *)
Theorem session_lock_mutual_exclusion :
  (forall h calls cfg,
     reachable h calls cfg ->
     (forall i j ti tj,
        c_threads cfg !! i = Some ti -> c_threads cfg !! j = Some tj ->
        th_session ti = th_session tj ->
        inside_lock (th_pc ti) = true -> inside_lock (th_pc tj) = true ->
        i = j) /\
     (forall i j ti tj,
        c_threads cfg !! i = Some ti -> c_threads cfg !! j = Some tj ->
        th_session ti = th_session tj ->
        on_client (th_pc ti) = true -> on_client (th_pc tj) = true ->
        i = j) /\
     (forall i ti o,
        c_threads cfg !! i = Some ti -> th_pc ti = AtAcquire ->
        c_heap cfg !! th_session ti = Some o ->
        (forall j tj, c_threads cfg !! j = Some tj ->
           th_session tj = th_session ti -> inside_lock (th_pc tj) = false) ->
        exists cfg',
          step cfg cfg' /\
          c_threads cfg' !! i
            = Some (Thread (th_session ti) (th_file ti) AtOpenFile))) /\
  (forall h r1 r2 o1 o2 c1 c2 f1 f2,
     r1 <> r2 ->
     h !! r1 = Some o1 -> lsp o1 = Some c1 ->
     h !! r2 = Some o2 -> lsp o2 = Some c2 ->
     exists cfg,
       reachable h [(r1, f1); (r2, f2)] cfg /\
       c_threads cfg = [Thread r1 f1 AtOpenFile; Thread r2 f2 AtOpenFile]).
Proof.
  split.
  - intros h calls cfg Hreach.
    destruct (lock_inv_reachable h calls cfg Hreach) as (I1 & I2 & I3).
    split; [|split].
    + intros i j ti tj Hi Hj Hs Hini Hinj. by apply (I2 i j ti tj).
    + intros i j ti tj Hi Hj Hs Hini Hinj.
      apply (I2 i j ti tj); auto using on_client_inside_lock.
    + intros i ti o Hi Hpc Ho Hnone.
      assert (Hfree : th_session ti ∉ c_held cfg).
      { intros Hheld. destruct (I3 _ Hheld) as (k & tk & Hk & Hs & Hink).
        by rewrite (Hnone k tk Hk Hs) in Hink. }
      eexists. split.
      * eapply (step_thread cfg i ti o); [done|done|].
        rewrite Hpc. by apply step_acquire.
      * simpl. apply list_lookup_insert_eq. by eapply lookup_lt_Some.
  - intros h r1 r2 o1 o2 c1 c2 f1 f2 Hne H1 Hl1 H2 Hl2.
    eexists. split.
    + unfold reachable.
      eapply rtc_l.
      { eapply (step_thread _ 0 (Thread r1 f1 AtCheck) o1);
          [reflexivity|exact H1|]. simpl. by eapply step_running. }
      eapply rtc_l.
      { eapply (step_thread _ 0 (Thread r1 f1 AtAcquire) o1);
          [reflexivity|exact H1|]. simpl. apply step_acquire.
        apply not_elem_of_empty. }
      eapply rtc_l.
      { eapply (step_thread _ 1 (Thread r2 f2 AtCheck) o2);
          [reflexivity|exact H2|]. simpl. by eapply step_running. }
      eapply rtc_l; [|apply rtc_refl].
      eapply (step_thread _ 1 (Thread r2 f2 AtAcquire) o2);
        [reflexivity|exact H2|]. simpl. apply step_acquire.
      rewrite elem_of_union, elem_of_singleton, elem_of_empty. intros [?|[]].
      by apply Hne.
    + reflexivity.
Qed.

Lemma session_lock_mutual_exclusion_witness :
  exists cfg,
    reachable (heap (both_created quiet_env))
      [(0, "app/main.py"); (1, "src/Main.java")] cfg /\
    c_threads cfg = [Thread 0 "app/main.py" AtOpenFile;
                     Thread 1 "src/Main.java" AtOpenFile] /\
    forall i j ti tj,
      c_threads cfg !! i = Some ti -> c_threads cfg !! j = Some tj ->
      th_session ti = th_session tj ->
      on_client (th_pc ti) = true -> on_client (th_pc tj) = true ->
      i = j.
Proof.
  destruct (proj2 session_lock_mutual_exclusion
              (heap (both_created quiet_env))
              0 1
              {| session_id := "3f2a9c04d17e"; language := "python";
                 project_path := "/srv/app"; lsp := Some 3;
                 server_context := Some 4; created_at := 2 |}
              {| session_id := "b81e55a07c3d"; language := "java";
                 project_path := "/srv/shop"; lsp := Some 11;
                 server_context := Some 12; created_at := 10 |}
              3 11 "app/main.py" "src/Main.java"
              (fun H : 0 = 1 => O_S 0 H)
              ltac:(vm_compute; reflexivity) eq_refl
              ltac:(vm_compute; reflexivity) eq_refl)
    as (cfg & Hreach & Hthreads).
  exists cfg. split; [exact Hreach|]. split; [exact Hthreads|].
  exact (proj1 (proj2 (proj1 session_lock_mutual_exclusion _ _ cfg Hreach))).
Defined.

End InterleavingFacts.

(** * Properties of the rest *)

(** ** Which session objects an operation touches *)

Lemma same_identity_refl (o : LSPSession) : same_identity o o.
Proof. done. Qed.

Lemma same_identity_trans (o1 o2 o3 : LSPSession) :
  same_identity o1 o2 -> same_identity o2 o3 -> same_identity o1 o3.
Proof.
  intros (H1 & H2 & H3 & H4) (H5 & H6 & H7 & H8).
  repeat split; congruence.
Qed.

Lemma touches_only_same_heap (target : option ref) (s s' : state) :
  heap s' = heap s -> touches_only target s s'.
Proof. intros Hh r o Hr. rewrite Hh. split; [by exists o|done]. Qed.

Lemma touches_only_insert (s s' : state) (r : ref) (o o' : LSPSession) :
  heap s !! r = Some o -> same_identity o o' ->
  heap s' = <[r := o']> (heap s) ->
  touches_only (Some r) s s'.
Proof.
  intros Hr Hid Hh r1 o1 Hr1. rewrite Hh.
  destruct (decide (r1 = r)) as [->|Hne].
  - assert (o1 = o) as -> by congruence. split; [|done].
    exists o'. split; [|done].
    apply list_lookup_insert_eq. by eapply lookup_lt_Some.
  - rewrite list_lookup_insert_ne by done. split; [by exists o1|done].
Qed.

Lemma touches_only_weaken (target : option ref) (s s' : state) :
  touches_only None s s' -> touches_only target s s'.
Proof.
  intros H r o Hr. destruct (H r o Hr) as [H1 H2]. split; [done|].
  intros _. by apply H2.
Qed.

Lemma touches_only_trans (t : option ref) (s1 s2 s3 : state) :
  touches_only t s1 s2 -> touches_only t s2 s3 -> touches_only t s1 s3.
Proof.
  intros H12 H23 r o Hr. destruct (H12 r o Hr) as [(o2 & Hr2 & Hid2) Hkeep2].
  destruct (H23 r o2 Hr2) as [(o3 & Hr3 & Hid3) Hkeep3]. split.
  - exists o3. split; [done|]. by eapply same_identity_trans.
  - intros Hne. specialize (Hkeep2 Hne).
    destruct (H23 r o Hkeep2) as [_ Hkeep]. by apply Hkeep.
Qed.

Section FrameFacts.

Variable env : environment.

Lemma start_touches_only (s : state) (r : ref) :
  touches_only (Some r) s (snd (start env r s)).
Proof.
  destruct (heap s !! r) as [o|] eqn:Hr.
  - rewrite (start_unfold env s r o Hr). simpl.
    destruct (ls_create env _ _ _) as [c|e]; simpl.
    + destruct (ls_start_server env _ _) as [ctx|e]; simpl;
        (eapply (touches_only_insert _ _ r o); [exact Hr| |reflexivity]; done).
    + by apply touches_only_same_heap.
  - unfold start, bind, deref. rewrite Hr. by apply touches_only_same_heap.
Qed.

Lemma start_heap (s : state) (r : ref) (o : LSPSession) :
  heap s !! r = Some o ->
  exists o', heap (snd (start env r s)) = <[r := o']> (heap s).
Proof.
  intros Hr. rewrite (start_unfold env s r o Hr). simpl.
  destruct (ls_create env _ _ _) as [c|e]; simpl.
  - destruct (ls_start_server env _ _) as [ctx|e]; simpl; by eexists.
  - exists o. by rewrite list_insert_id.
Qed.

Lemma stop_touches_only (s : state) (r : ref) :
  touches_only (Some r) s (snd (stop env r s)).
Proof.
  destruct (heap s !! r) as [o|] eqn:Hr.
  - rewrite (stop_unfold env s r o Hr).
    destruct (server_context o) as [ctx|]; simpl.
    + destruct (ctx_exit env _ _) as [u|e]; simpl.
      * (eapply (touches_only_insert _ _ r o); [exact Hr| |reflexivity]; done).
      * destruct (is_Exception e); simpl.
        -- (eapply (touches_only_insert _ _ r o); [exact Hr| |reflexivity]; done).
        -- by apply touches_only_same_heap.
    + (eapply (touches_only_insert _ _ r o); [exact Hr| |reflexivity]; done).
  - unfold stop, bind, deref. rewrite Hr. by apply touches_only_same_heap.
Qed.

Lemma get_diagnostics_heap (s : state) (r : ref) (file_path : string) :
  heap (snd (get_diagnostics env r file_path s)) = heap s.
Proof.
  destruct (heap s !! r) as [o|] eqn:Hr.
  - destruct (lsp o) as [c|] eqn:Hl.
    + destruct (get_diagnostics_refines_spec env s r o c file_path Hr Hl)
        as (res & s' & evs & Hrun & Hheap & _). by rewrite Hrun.
    + by rewrite (get_diagnostics_no_client env s r o file_path Hr Hl).
  - unfold get_diagnostics, bind, deref. by rewrite Hr.
Qed.

(** [create_session] either leaves the store as it is or puts one object
    at its end. *)
Lemma create_session_heap (lang path : string) (s : state) :
  heap (snd (create_session env lang path s)) = heap s \/
  exists o, heap (snd (create_session env lang path s)) = heap s ++ [o].
Proof.
  destruct (negb (String.eqb lang "python" || String.eqb lang "java")) eqn:Hl.
  { left. unfold create_session. by rewrite Hl. }
  destruct (os_path_isabs env path) eqn:Habs.
  2:{ left. unfold create_session. by rewrite Hl, Habs. }
  destruct (os_path_isdir env (trace s) path) eqn:Hdir.
  2:{ left. unfold create_session. rewrite Hl, Habs. simpl.
      unfold bind, ask. by rewrite Hdir. }
  assert (Hvalid : valid_language lang).
  { apply negb_false_iff, orb_true_iff in Hl. unfold valid_language.
    by rewrite !String.eqb_eq in Hl. }
  right. rewrite (create_session_valid env lang path s Hvalid Habs Hdir).
  destruct (constructed_heap env lang path s) as [t Hc].
  assert (Hstart : exists o, heap (snd (start env (length (heap s))
                                  (constructed env lang path s))) = heap s ++ [o]).
  { set (o0 := {| session_id := drawn_id env path s; language := lang;
                  project_path := path; lsp := None; server_context := None;
                  created_at := t |}) in Hc.
    assert (Ho0 : heap (constructed env lang path s) !! length (heap s) = Some o0).
    { rewrite Hc, lookup_app_r by done. by rewrite Nat.sub_diag. }
    assert (Hins : forall o, <[length (heap s) := o]> (heap s ++ [o0]) = heap s ++ [o]).
    { intros o. rewrite insert_app_r_alt by done. by rewrite Nat.sub_diag. }
    destruct (start_heap _ _ o0 Ho0) as [o' ->].
    exists o'. by rewrite Hc, Hins. }
  destruct Hstart as [o Ho].
  exists o. by destruct (start env _ _) as [[[]|e|] s1].
Qed.

Lemma create_session_touches_only (lang path : string) (s : state) :
  touches_only None s (snd (create_session env lang path s)).
Proof.
  destruct (create_session_heap lang path s) as [Hh|[o Hh]].
  - by apply touches_only_same_heap.
  - intros r o1 Hr. rewrite Hh. rewrite lookup_app_l by (by eapply lookup_lt_Some).
    split; [by exists o1|done].
Qed.

Lemma delete_session_touches_only (sid : string) (s : state) :
  touches_only (_sessions s !! sid) s (snd (delete_session env sid s)).
Proof.
  rewrite delete_session_unfold.
  destruct (_sessions s !! sid) as [r|]; [|by apply touches_only_same_heap].
  pose proof (stop_touches_only (registry_accessed (delete sid (_sessions s)) s) r)
    as Hstop.
  by destruct (stop env r _) as [[[]|e|] s'].
Qed.

Lemma run_op_touches_only (op : registry_op) (s : state) :
  touches_only (match op with
                | OpDelete sid => _sessions s !! sid
                | _ => None
                end) s (run_op env op s).
Proof.
  destruct op as [lang path|sid|sid|sid file_path]; unfold run_op.
  - apply create_session_touches_only.
  - rewrite get_session_unfold. by apply touches_only_same_heap.
  - apply delete_session_touches_only.
  - rewrite get_session_unfold.
    destruct (_sessions s !! sid) as [r|]; [|by apply touches_only_same_heap].
    apply touches_only_same_heap. by rewrite get_diagnostics_heap.
Qed.

End FrameFacts.

(** X1: an operation on the registry changes no session object other than
    the one a delete stops: creating, looking up and querying leave every
    existing object exactly as it was, and deleting [sid] leaves every
    object but the one registered under [sid]. *)
Theorem operations_leave_other_sessions_alone (env : environment)
    (op : registry_op) (s : state) (r : ref) (o : LSPSession) :
  heap s !! r = Some o ->
  (forall sid, op = OpDelete sid -> _sessions s !! sid <> Some r) ->
  heap (run_op env op s) !! r = Some o.
Proof.
  intros Hr Hother.
  destruct (run_op_touches_only env op s r o Hr) as [_ Hkeep].
  apply Hkeep. destruct op as [lang path|sid|sid|sid file_path]; try done.
  by apply Hother.
Qed.

Lemma operations_leave_other_sessions_alone_witness :
  heap (run_op quiet_env (OpDelete "b81e55a07c3d") (both_created quiet_env)) !! 0
    = heap (both_created quiet_env) !! 0.
Proof.
  refine (operations_leave_other_sessions_alone quiet_env
            (OpDelete "b81e55a07c3d") (both_created quiet_env) 0 _ eq_refl _).
  intros sid [= <-]. discriminate.
Defined.

(** X2: over any sequence of registry operations a session object stays
    in the store, and its identifier, language, project path and creation
    time stay what the constructor made them. *)
Theorem session_attributes_never_change (env : environment)
    (ops : list registry_op) (s : state) (r : ref) (o : LSPSession) :
  heap s !! r = Some o ->
  exists o', heap (run_ops env ops s) !! r = Some o' /\ same_identity o o'.
Proof.
  revert s o. induction ops as [|op ops IH]; intros s o Hr.
  - by exists o.
  - simpl. destruct (run_op_touches_only env op s r o Hr) as [(o1 & Hr1 & Hid1) _].
    destruct (IH _ o1 Hr1) as (o2 & Hr2 & Hid2).
    exists o2. split; [done|]. by eapply same_identity_trans.
Qed.

Lemma session_attributes_never_change_witness :
  exists o',
    heap (run_ops failing_teardown_env
            [OpDiagnostics "3f2a9c04d17e" "app/main.py"; OpDelete "3f2a9c04d17e";
             OpCreate "java" "/srv/shop"]
            (one_session failing_teardown_env)) !! 0 = Some o' /\
    same_identity
      {| session_id := "3f2a9c04d17e"; language := "python";
         project_path := "/srv/app"; lsp := Some 3;
         server_context := Some 4; created_at := 2 |} o'.
Proof.
  exact (session_attributes_never_change failing_teardown_env _
           (one_session failing_teardown_env) 0 _ eq_refl).
Defined.

(** ** Locks *)

Lemma lock_scan_app (held : option lock_id) (tr1 tr2 : list event) :
  lock_scan held (tr1 ++ tr2) =
    match lock_scan held tr1 with
    | Some held' => lock_scan held' tr2
    | None => None
    end.
Proof.
  revert held. induction tr1 as [|ev tr1 IH]; intros held; [done|].
  destruct ev; simpl; try (by destruct held as [[]|]).
  destruct held as [l'|]; simpl; [|done].
  destruct (lock_eqb l l'); [apply IH|done].
Qed.

Lemma lock_eqb_refl (l : lock_id) : lock_eqb l l = true.
Proof. destruct l; simpl; [done|]. apply Nat.eqb_refl. Qed.

Lemma lock_scan_no_lock_events (held : option lock_id) (tr : list event) :
  no_lock_events tr -> held <> Some ManagerLock ->
  lock_scan held tr = Some held.
Proof.
  intros Hno Hheld. induction Hno as [|ev tr Hev _ IH]; [done|].
  destruct ev; simpl; try done; by destruct held as [[]|].
Qed.

Lemma lock_scan_manager_access :
  lock_scan None locked_registry_access = Some None.
Proof. reflexivity. Qed.

Lemma lock_scan_session (r : ref) (evs : list event) :
  no_lock_events evs ->
  lock_scan None ([EvAcquire (SessionLock r)] ++ evs ++ [EvRelease (SessionLock r)])
    = Some None.
Proof.
  intros Hno. simpl. rewrite lock_scan_app.
  rewrite (lock_scan_no_lock_events _ _ Hno) by done. simpl.
  by rewrite Nat.eqb_refl.
Qed.

Lemma well_locked_app (tr1 tr2 : list event) :
  well_locked tr1 -> well_locked tr2 -> well_locked (tr1 ++ tr2).
Proof. unfold well_locked. intros H1 H2. by rewrite lock_scan_app, H1. Qed.

Lemma well_locked_no_lock_events (tr : list event) :
  no_lock_events tr -> well_locked tr.
Proof. intros Hno. by apply lock_scan_no_lock_events. Qed.

Section LockFacts.

Variable env : environment.

Lemma start_chunk (s : state) (r : ref) :
  exists chunk, trace (snd (start env r s)) = trace s ++ chunk /\
                no_lock_events chunk.
Proof.
  destruct (heap s !! r) as [o|] eqn:Hr.
  - rewrite (start_unfold env s r o Hr). simpl.
    destruct (ls_create env _ _ _) as [c|e]; simpl.
    + destruct (ls_start_server env _ _) as [ctx|e]; simpl.
      * eexists [_; _; _]. rewrite <- !app_assoc. split; [done|].
        by repeat constructor.
      * eexists [_; _]. rewrite <- !app_assoc. split; [done|].
        by repeat constructor.
    + eexists [_]. split; [done|]. by repeat constructor.
  - unfold start, bind, deref. rewrite Hr. exists []. rewrite app_nil_r.
    split; [done|constructor].
Qed.

Lemma stop_chunk (s : state) (r : ref) :
  exists chunk, trace (snd (stop env r s)) = trace s ++ chunk /\
                no_lock_events chunk.
Proof.
  destruct (heap s !! r) as [o|] eqn:Hr.
  - rewrite (stop_unfold env s r o Hr).
    destruct (server_context o) as [ctx|]; simpl.
    + destruct (ctx_exit env _ _) as [u|e]; simpl.
      * eexists [_]. split; [done|]. by repeat constructor.
      * destruct (is_Exception e); simpl;
          (eexists [_]; split; [done|]; by repeat constructor).
    + exists []. rewrite app_nil_r. split; [done|constructor].
  - unfold stop, bind, deref. rewrite Hr. exists []. rewrite app_nil_r.
    split; [done|constructor].
Qed.

Lemma spec_GetDiagnostics_no_lock_events (c : handle) (file_path : string)
    (ms : Z) (evs : list event) (res : result (option (list DiagnosticItem))) :
  spec_GetDiagnostics c file_path ms evs res -> no_lock_events evs.
Proof.
  intros [e|cm e|cm blk block closing Hblk]; [by repeat constructor..|].
  destruct Hblk; by repeat constructor.
Qed.

Lemma get_diagnostics_chunk (s : state) (r : ref) (file_path : string) :
  exists chunk, trace (snd (get_diagnostics env r file_path s)) = trace s ++ chunk /\
                well_locked chunk.
Proof.
  destruct (heap s !! r) as [o|] eqn:Hr.
  - destruct (lsp o) as [c|] eqn:Hl.
    + destruct (get_diagnostics_refines_spec env s r o c file_path Hr Hl)
        as (res & s' & evs & Hrun & _ & _ & Htr & Hspec).
      rewrite Hrun. simpl. eexists. split; [exact Htr|].
      apply lock_scan_session. by eapply spec_GetDiagnostics_no_lock_events.
    + rewrite (get_diagnostics_no_client env s r o file_path Hr Hl).
      exists []. by rewrite app_nil_r.
  - unfold get_diagnostics, bind, deref. rewrite Hr.
    exists []. by rewrite app_nil_r.
Qed.

Lemma create_session_chunk (lang path : string) (s : state) :
  exists chunk, trace (snd (create_session env lang path s)) = trace s ++ chunk /\
                well_locked chunk.
Proof.
  destruct (negb (String.eqb lang "python" || String.eqb lang "java")) eqn:Hl.
  { unfold create_session. rewrite Hl. exists []. by rewrite app_nil_r. }
  destruct (os_path_isabs env path) eqn:Habs.
  2:{ unfold create_session. rewrite Hl, Habs. exists []. by rewrite app_nil_r. }
  destruct (os_path_isdir env (trace s) path) eqn:Hdir.
  2:{ unfold create_session. rewrite Hl, Habs. simpl.
      unfold bind, ask. rewrite Hdir. by eexists [_]. }
  assert (Hvalid : valid_language lang).
  { apply negb_false_iff, orb_true_iff in Hl. unfold valid_language.
    by rewrite !String.eqb_eq in Hl. }
  rewrite (create_session_valid env lang path s Hvalid Habs Hdir).
  destruct (start_chunk (constructed env lang path s) (length (heap s)))
    as (chunk & Htr & Hno).
  assert (Hc : exists pre, trace (constructed env lang path s) = trace s ++ pre /\
                           no_lock_events pre).
  { eexists [_; _; _]. simpl. rewrite <- !app_assoc. split; [done|].
    by repeat constructor. }
  destruct Hc as (pre & Hpre & Hnopre).
  assert (Hwl : well_locked (pre ++ chunk)).
  { apply well_locked_no_lock_events. by apply Forall_app. }
  destruct (start env _ _) as [[[]|e|] s1]; simpl in *.
  - exists ((pre ++ chunk) ++ locked_registry_access). split.
    + by rewrite Htr, Hpre, <- !app_assoc.
    + by apply well_locked_app.
  - exists (pre ++ chunk). split; [|done]. by rewrite Htr, Hpre, <- !app_assoc.
  - exists (pre ++ chunk). split; [|done]. by rewrite Htr, Hpre, <- !app_assoc.
Qed.

Lemma delete_session_chunk (sid : string) (s : state) :
  exists chunk, trace (snd (delete_session env sid s)) = trace s ++ chunk /\
                well_locked chunk.
Proof.
  rewrite delete_session_unfold.
  destruct (_sessions s !! sid) as [r|]; [|by exists locked_registry_access].
  destruct (stop_chunk (registry_accessed (delete sid (_sessions s)) s) r)
    as (chunk & Htr & Hno).
  exists (locked_registry_access ++ chunk). split.
  - simpl in Htr. rewrite <- app_assoc in Htr.
    by destruct (stop env r _) as [[[]|e|] s'].
  - apply well_locked_app; [done|]. by apply well_locked_no_lock_events.
Qed.

Lemma run_op_chunk (op : registry_op) (s : state) :
  exists chunk, trace (run_op env op s) = trace s ++ chunk /\ well_locked chunk.
Proof.
  destruct op as [lang path|sid|sid|sid file_path]; unfold run_op.
  - apply create_session_chunk.
  - rewrite get_session_unfold. by exists locked_registry_access.
  - apply delete_session_chunk.
  - rewrite get_session_unfold.
    destruct (_sessions s !! sid) as [r|]; [|by exists locked_registry_access].
    destruct (get_diagnostics_chunk (registry_accessed (_sessions s) s) r file_path)
      as (chunk & Htr & Hwl).
    exists (locked_registry_access ++ chunk). split.
    + rewrite Htr. simpl. by rewrite <- app_assoc.
    + by apply well_locked_app.
Qed.

Lemma run_ops_chunk (ops : list registry_op) (s : state) :
  exists chunk, trace (run_ops env ops s) = trace s ++ chunk /\ well_locked chunk.
Proof.
  revert s. induction ops as [|op ops IH]; intros s.
  - exists []. by rewrite app_nil_r.
  - simpl. destruct (run_op_chunk op s) as (c1 & H1 & Hw1).
    destruct (IH (run_op env op s)) as (c2 & H2 & Hw2).
    exists (c1 ++ c2). split; [by rewrite H2, H1, <- app_assoc|].
    by apply well_locked_app.
Qed.

End LockFacts.

Lemma run_ops_well_locked (env : environment) (ops : list registry_op) :
  lock_scan None (trace (run_ops env ops initial_state)) = Some None.
Proof.
  destruct (run_ops_chunk env ops initial_state) as (chunk & Htr & Hwl).
  by rewrite Htr.
Qed.

(** X3: whatever the calls outside server.py answer, in the trace of any
    sequence of registry operations a lock is acquired only while none is
    held, the lock released is the one held, nothing at all is called
    while the manager's lock is held (so never [start], [stop] or the
    client), and at the end no lock is held. *)
Theorem locks_are_given_back (env : environment) (ops : list registry_op) :
  lock_scan None (trace (run_ops env ops initial_state)) = Some None.
Proof. apply run_ops_well_locked. Qed.

(** ** What create_session and delete_session leave behind *)

Section ManagerFacts.

Variable env : environment.

(** [create_session] raises with the registry as it was, or returns the
    reference of a new last object of the store, which is running and
    registered under the identifier drawn. *)
Lemma create_session_cases (lang path : string) (s : state) :
  (exists e, fst (create_session env lang path s) = Raise e /\
             _sessions (snd (create_session env lang path s)) = _sessions s) \/
  (fst (create_session env lang path s) = Ret (length (heap s)) /\
   exists o c ctx,
     heap (snd (create_session env lang path s)) = heap s ++ [o] /\
     session_id o = drawn_id env path s /\
     language o = lang /\ project_path o = path /\
     lsp o = Some c /\ server_context o = Some ctx /\
     _sessions (snd (create_session env lang path s))
       = <[drawn_id env path s := length (heap s)]> (_sessions s) /\
     started_in env (trace (snd (create_session env lang path s)))
       lang path c ctx).
Proof.
  destruct (negb (String.eqb lang "python" || String.eqb lang "java")) eqn:Hl.
  { left. unfold create_session. rewrite Hl. by eexists. }
  destruct (os_path_isabs env path) eqn:Habs.
  2:{ left. unfold create_session. rewrite Hl, Habs. by eexists. }
  destruct (os_path_isdir env (trace s) path) eqn:Hdir.
  2:{ left. unfold create_session. rewrite Hl, Habs. simpl.
      unfold bind, ask. rewrite Hdir. by eexists. }
  assert (Hvalid : valid_language lang).
  { apply negb_false_iff, orb_true_iff in Hl. unfold valid_language.
    by rewrite !String.eqb_eq in Hl. }
  rewrite (create_session_valid env lang path s Hvalid Habs Hdir).
  destruct (constructed_lookup env lang path s)
    as (o0 & Ho0 & Hid & Hlang & Hpath & _).
  destruct (constructed_heap env lang path s) as [t Hc].
  pose proof (start_sessions env (constructed env lang path s) (length (heap s)))
    as Hreg.
  pose proof (start_not_dangling env _ _ o0 Ho0) as Hnd.
  destruct (start env _ _) as [[[]|e|] s1] eqn:Hstart; simpl in Hreg, Hnd |- *.
  - right. split; [done|].
    destruct (start_returns_answers env _ s1 _ o0 Ho0 Hstart)
      as (c & ctx & Hheap & Htr & Hans).
    rewrite Hlang, Hpath in Htr, Hans.
    exists (set_server_context (Some ctx) (set_lsp (Some c) o0)), c, ctx.
    rewrite Hheap, Hc, Hreg.
    rewrite insert_app_r_alt by done. rewrite Nat.sub_diag.
    repeat (split; [done|]).
    exists (trace (constructed env lang path s)), locked_registry_access.
    split; [|done]. rewrite Htr. by rewrite <- app_assoc.
  - left. by exists e.
  - done.
Qed.

Lemma delete_session_sessions (sid : string) (s : state) :
  _sessions (snd (delete_session env sid s)) = delete sid (_sessions s).
Proof.
  rewrite delete_session_unfold.
  destruct (_sessions s !! sid) as [r|]; [|done].
  assert (Hreg : _sessions (snd (stop env r
                    (registry_accessed (delete sid (_sessions s)) s)))
                 = delete sid (_sessions s)).
  { destruct (heap s !! r) as [o|] eqn:Hr.
    - rewrite (stop_unfold env _ r o) by done. simpl.
      destruct (server_context o); [|done].
      destruct (ctx_exit env _ _) as [|e]; [done|]. by destruct (is_Exception e).
    - unfold stop, bind, deref. simpl. by rewrite Hr. }
  by destruct (stop env r _) as [[[]|e|] s'].
Qed.

Lemma started_in_app (tr chunk : list event) (lang path : string)
    (c ctx : handle) :
  started_in env tr lang path c ctx ->
  started_in env (tr ++ chunk) lang path c ctx.
Proof.
  intros (tr1 & tr2 & -> & Hans). exists tr1, (tr2 ++ chunk).
  split; [|done]. by rewrite <- !app_assoc.
Qed.

(** Carrying the invariant over an operation that keeps the entries it
    is about, keeps their objects and only adds to the trace. *)
Lemma running_inv_kept (s s' : state) (sid : string) (r : ref)
    (chunk : list event) :
  running_inv env s -> _sessions s !! sid = Some r ->
  (forall o, heap s !! r = Some o -> heap s' !! r = Some o) ->
  trace s' = trace s ++ chunk ->
  exists o c ctx, heap s' !! r = Some o /\ session_id o = sid /\
                  lsp o = Some c /\ server_context o = Some ctx /\
                  started_in env (trace s') (language o) (project_path o) c ctx.
Proof.
  intros Hinv Hsid Hkeep Htr.
  destruct (Hinv sid r Hsid) as (o & c & ctx & Hr & Hid & Hl & Hctx & Hst).
  exists o, c, ctx. split; [by apply Hkeep|]. repeat (split; [done|]).
  rewrite Htr. by apply started_in_app.
Qed.

Lemma create_session_running (lang path : string) (s : state) :
  running_inv env s -> running_inv env (snd (create_session env lang path s)).
Proof.
  intros Hinv.
  pose proof (create_session_touches_only env lang path s) as Hframe.
  destruct (create_session_chunk env lang path s) as (chunk & Htr & _).
  destruct (create_session_cases lang path s)
    as [(e & _ & Hreg)
       |(_ & o & c & ctx & Hheap & Hid & Hlang & Hpath & Hl & Hctx & Hreg & Hst)];
    intros sid r; rewrite Hreg.
  - intros Hsid. apply (running_inv_kept s _ sid r chunk Hinv Hsid); [|done].
    intros o1 Hr. by apply (Hframe r o1 Hr).
  - destruct (decide (drawn_id env path s = sid)) as [<-|Hne].
    + rewrite lookup_insert_eq. intros [= <-].
      exists o, c, ctx. rewrite Hheap, lookup_app_r by done.
      rewrite Nat.sub_diag, Hlang, Hpath. by repeat split.
    + rewrite lookup_insert_ne by done. intros Hsid.
      apply (running_inv_kept s _ sid r chunk Hinv Hsid); [|done].
      intros o1 Hr. by apply (Hframe r o1 Hr).
Qed.

Lemma delete_session_running (sid : string) (s : state) :
  running_inv env s -> running_inv env (snd (delete_session env sid s)).
Proof.
  intros Hinv k r. rewrite delete_session_sessions.
  intros Hk. apply lookup_delete_Some in Hk as [Hne Hk].
  destruct (delete_session_chunk env sid s) as (chunk & Htr & _).
  apply (running_inv_kept s _ k r chunk Hinv Hk); [|done].
  intros o Hr. apply (delete_session_touches_only env sid s r o Hr).
  intros Hsid.
  destruct (Hinv k r Hk) as (o1 & _ & _ & Hr1 & Hid1 & _).
  destruct (Hinv sid r Hsid) as (o2 & _ & _ & Hr2 & Hid2 & _).
  congruence.
Qed.

Lemma run_op_running (op : registry_op) (s : state) :
  running_inv env s -> running_inv env (run_op env op s).
Proof.
  intros Hinv.
  destruct (run_op_chunk env op s) as (chunk & Htr & _).
  destruct op as [lang path|sid|sid|sid file_path].
  - by apply create_session_running.
  - unfold run_op in *. rewrite get_session_unfold in *.
    intros k r Hk. by apply (running_inv_kept s _ k r chunk Hinv Hk).
  - by apply delete_session_running.
  - intros k r Hk.
    assert (Hreg : _sessions (run_op env (OpDiagnostics sid file_path) s)
                   = _sessions s).
    { unfold run_op. rewrite get_session_unfold.
      destruct (_sessions s !! sid) as [r'|]; [|done].
      by destruct (get_diagnostics_same_ids env
                     (registry_accessed (_sessions s) s) r' file_path) as [_ ->]. }
    assert (Hheap : heap (run_op env (OpDiagnostics sid file_path) s) = heap s).
    { unfold run_op. rewrite get_session_unfold.
      destruct (_sessions s !! sid) as [r'|]; [|done].
      by rewrite get_diagnostics_heap. }
    rewrite Hreg in Hk.
    apply (running_inv_kept s _ k r chunk Hinv Hk); [|done].
    intros o. by rewrite Hheap.
Qed.

Lemma run_ops_running (ops : list registry_op) (s : state) :
  running_inv env s -> running_inv env (run_ops env ops s).
Proof.
  revert s. induction ops as [|op ops IH]; intros s Hinv; [done|].
  simpl. apply IH. by apply run_op_running.
Qed.

End ManagerFacts.

Lemma run_ops_snoc (env : environment) (ops : list registry_op)
    (op : registry_op) (s : state) :
  run_ops env (ops ++ [op]) s = run_op env op (run_ops env ops s).
Proof. unfold run_ops. by rewrite fold_left_app. Qed.

Lemma running_inv_initial (env : environment) : running_inv env initial_state.
Proof. intros sid r. simpl. by rewrite lookup_empty. Qed.

(** X4: after any sequence of registry operations, every session the
    registry holds is stored under its own identifier and holds a client
    and a server context that the environment created and let be entered,
    as the trace records; so a query for a registered identifier passes
    the not-running test, takes the session's lock and puts [open_file]
    to the environment for that client. *)
Theorem registered_sessions_are_running (env : environment)
    (ops : list registry_op) (sid : string) (r : ref) :
  _sessions (run_ops env ops initial_state) !! sid = Some r ->
  exists o c ctx,
    heap (run_ops env ops initial_state) !! r = Some o /\
    session_id o = sid /\ lsp o = Some c /\ server_context o = Some ctx /\
    started_in env (trace (run_ops env ops initial_state))
      (language o) (project_path o) c ctx /\
    forall file_path,
      exists rest,
        trace (run_ops env (ops ++ [OpDiagnostics sid file_path]) initial_state)
          = trace (run_ops env ops initial_state) ++ locked_registry_access
              ++ EvAcquire (SessionLock r)
              :: EvOpenFile c file_path
                   (ls_open_file env
                      (trace (run_ops env ops initial_state)
                         ++ locked_registry_access ++ [EvAcquire (SessionLock r)])
                      c file_path)
              :: rest.
Proof.
  intros Hsid.
  destruct (run_ops_running env ops initial_state (running_inv_initial env)
              sid r Hsid) as (o & c & ctx & Hr & Hid & Hl & Hctx & Hst).
  exists o, c, ctx. repeat (split; [done|]).
  intros file_path. rewrite run_ops_snoc. unfold run_op.
  rewrite get_session_unfold, Hsid.
  destruct (get_diagnostics_run env
              (registry_accessed (_sessions (run_ops env ops initial_state))
                 (run_ops env ops initial_state)) r o c file_path Hr Hl)
    as (res & s' & evs & Hrun & _ & _ & Htr & Hspec & Hans).
  rewrite Hrun. simpl. rewrite Htr. simpl. rewrite <- !app_assoc.
  simpl in Hans. rewrite <- !app_assoc in Hans.
  destruct Hspec as [e1|cm e1|cm blk block closing Hblk];
    destruct Hans as [E1 _]; simpl in E1; rewrite <- E1; simpl; eauto.
Qed.

Lemma registered_sessions_are_running_witness :
  exists o c ctx,
    heap (both_created colliding_env) !! 1 = Some o /\
    session_id o = "3f2a9c04d17e" /\ lsp o = Some c /\
    server_context o = Some ctx /\
    started_in colliding_env (trace (both_created colliding_env))
      (language o) (project_path o) c ctx.
Proof.
  destruct (registered_sessions_are_running colliding_env
              [OpCreate "python" "/srv/app"; OpCreate "java" "/srv/shop"]
              "3f2a9c04d17e" 1 ltac:(vm_compute; reflexivity))
    as (o & c & ctx & H1 & H2 & H3 & H4 & H5 & _).
  exists o, c, ctx. repeat split; assumption.
Defined.



Example lock_scan_rejects_call_under_manager_lock :
  lock_scan None [EvAcquire ManagerLock; EvTime 0; EvRelease ManagerLock] = None.
Proof. reflexivity. Qed.

Example lock_scan_rejects_lock_left_held :
  lock_scan None [EvAcquire (SessionLock 0); EvSleep 2000 (Returns tt)]
    = Some (Some (SessionLock 0)).
Proof. reflexivity. Qed.

(** ** Deleting twice, creating then deleting *)

(** X5: a second [delete_session] on the same identifier returns [False],
    whatever the first one did (also when its teardown raised): it does
    nothing but take and give back the manager's lock, so no second
    release of the client is attempted. *)
Theorem second_delete_finds_nothing (env : environment) (sid : string)
    (s : state) :
  delete_session env sid (snd (delete_session env sid s))
    = (Ret false,
       registry_accessed (_sessions (snd (delete_session env sid s)))
         (snd (delete_session env sid s))).
Proof.
  pose proof (delete_session_sessions env sid s) as Hreg.
  assert (Hnone : _sessions (snd (delete_session env sid s)) !! sid = None)
    by (rewrite Hreg; apply lookup_delete_eq).
  rewrite (delete_session_unfold env sid (snd (delete_session env sid s))).
  rewrite Hnone. by rewrite (delete_id _ _ Hnone).
Qed.

(** X6: creating a session under an identifier that was not registered and
    then deleting that identifier gives back the registry as it was
    before; the delete puts to the environment, once, the release of the
    server context the creation entered, and returns [True] unless the
    environment answers that release by raising outside [Exception]. *)
Theorem create_then_delete_restores_registry (env : environment)
    (lang path : string) (s s1 : state) (r : ref) :
  create_session env lang path s = (Ret r, s1) ->
  _sessions s !! drawn_id env path s = None ->
  exists o ctx,
    heap s1 !! r = Some o /\ session_id o = drawn_id env path s /\
    server_context o = Some ctx /\
    _sessions (snd (delete_session env (session_id o) s1)) = _sessions s /\
    trace (snd (delete_session env (session_id o) s1))
      = trace s1 ++ locked_registry_access
          ++ [EvCtxExit ctx
                (ctx_exit env (trace s1 ++ locked_registry_access) ctx)] /\
    (fst (delete_session env (session_id o) s1) = Ret true \/
     exists e, ctx_exit env (trace s1 ++ locked_registry_access) ctx = Raises e /\
               is_Exception e = false /\
               fst (delete_session env (session_id o) s1) = Raise e).
Proof.
  intros Hcreate Hfresh.
  destruct (create_session_cases env lang path s)
    as [(e & He & _)|(Hres & o & c & ctx & Hheap & Hid & _ & _ & Hl & Hctx & Hreg & _)];
    rewrite Hcreate in *; simpl in *; [done|].
  inversion Hres; subst r; clear Hres.
  assert (Hr : heap s1 !! length (heap s) = Some o).
  { rewrite Hheap, lookup_app_r by done. by rewrite Nat.sub_diag. }
  exists o, ctx.
  split; [done|]. split; [done|]. split; [done|].
  split.
  { rewrite delete_session_sessions, Hid, Hreg. by apply delete_insert_id. }
  rewrite delete_session_unfold, Hid, Hreg, lookup_insert_eq.
  rewrite (stop_unfold env _ _ o) by done. rewrite Hctx. simpl.
  destruct (ctx_exit env _ ctx) as [u|e]; simpl.
  - split; [by rewrite <- app_assoc|by left].
  - destruct (is_Exception e) eqn:He; simpl.
    + split; [by rewrite <- app_assoc|by left].
    + split; [by rewrite <- app_assoc|]. right. by exists e.
Qed.

Lemma create_then_delete_restores_registry_witness :
  exists o,
    heap (one_session failing_teardown_env) !! 0 = Some o /\
    _sessions (snd (delete_session failing_teardown_env (session_id o)
                      (one_session failing_teardown_env))) = ∅.
Proof.
  destruct (create_then_delete_restores_registry failing_teardown_env
              "python" "/srv/app" initial_state
              (one_session failing_teardown_env) 0
              ltac:(vm_compute; reflexivity) eq_refl)
    as (o & ctx & Ho & _ & _ & Hreg & _).
  exists o. split; [exact Ho|exact Hreg].
Defined.

(** ** A session whose start failed *)

(** X7: [stop] on a session whose [start] failed while entering the server
    context still calls [__exit__] on that context, which was never
    entered, before it clears the session. *)
Theorem stop_after_failed_enter_still_exits (env : environment)
    (s s1 : state) (r : ref) (o : LSPSession) (c ctx : handle) (e : exn) :
  heap s !! r = Some o ->
  ls_create env (trace s) (lang_enum_of (language o)) (project_path o) = Returns c ->
  ls_start_server env
    (trace s ++ [EvCreate (lang_enum_of (language o)) (project_path o) (Returns c)])
    c = Returns ctx ->
  start env r s = (Raise e, s1) ->
  trace s1 = trace s ++
    [EvCreate (lang_enum_of (language o)) (project_path o) (Returns c);
     EvStartServer c (Returns ctx); EvCtxEnter ctx (Raises e)] /\
  trace (snd (stop env r s1))
    = trace s1 ++ [EvCtxExit ctx (ctx_exit env (trace s1) ctx)].
Proof.
  intros Hr Hcreate Hserver Hstart.
  assert (Hlt : r < length (heap s)) by (by eapply lookup_lt_Some).
  rewrite (start_unfold env s r o Hr) in Hstart. simpl in Hstart.
  rewrite Hcreate, Hserver in Hstart.
  destruct (ctx_enter env _ ctx) as [[]|e1] eqn:Hen; [done|].
  inversion Hstart; subst e1 s1; clear Hstart. simpl.
  split; [by rewrite <- !app_assoc|].
  rewrite (stop_unfold env _ r (set_server_context (Some ctx) (set_lsp (Some c) o)))
    by (simpl; by apply list_lookup_insert_eq).
  simpl. destruct (ctx_exit env _ ctx) as [u|e1]; [done|].
  by destruct (is_Exception e1).
Qed.

Lemma stop_after_failed_enter_still_exits_witness :
  trace (snd (stop failing_enter_env 0
                (snd (start failing_enter_env 0
                        {| heap := [fresh_session]; _sessions := ∅; trace := [] |}))))
    = [EvCreate PYTHON "/srv/app" (Returns 0); EvStartServer 0 (Returns 1);
       EvCtxEnter 1 (Raises (Exn (OtherException "MultilspyException") "server exited"));
       EvCtxExit 1 (Returns tt)].
Proof.
  destruct (stop_after_failed_enter_still_exits failing_enter_env
              {| heap := [fresh_session]; _sessions := ∅; trace := [] |}
              (snd (start failing_enter_env 0
                      {| heap := [fresh_session]; _sessions := ∅; trace := [] |}))
              0 fresh_session 0 1
              (Exn (OtherException "MultilspyException") "server exited")
              eq_refl eq_refl eq_refl eq_refl) as [H1 H2].
  rewrite H2, H1. reflexivity.
Defined.


(** ** The request handlers *)

Module GatewayFacts.

Import Gateway.

Lemma served_eta (sv : served) :
  {| sv_state := sv_state sv; sv_keys := sv_keys sv |} = sv.
Proof. by destruct sv. Qed.

Lemma lift_get_session (sid : string) (sv : served) :
  lift (get_session sid) sv =
    (Ret (_sessions (sv_state sv) !! sid),
     {| sv_state := registry_accessed (_sessions (sv_state sv)) (sv_state sv);
        sv_keys := sv_keys sv |}).
Proof. unfold lift. by rewrite get_session_unfold. Qed.

Lemma run_ops_app (env : environment) (ops1 ops2 : list registry_op)
    (s : state) :
  run_ops env (ops1 ++ ops2) s = run_ops env ops2 (run_ops env ops1 s).
Proof. unfold run_ops. by rewrite fold_left_app. Qed.

Section HandlerFacts.

Variable env : environment.

(** [ordered_create_session] is [create_session] on the state, and adds
    the identifier drawn to the keys when a session is returned. *)
Lemma ordered_create_session_unfold (lang path : string) (sv : served) :
  ordered_create_session env lang path sv =
    (fst (create_session env lang path (sv_state sv)),
     {| sv_state := snd (create_session env lang path (sv_state sv));
        sv_keys := match fst (create_session env lang path (sv_state sv)) with
                   | Ret _ => keys_setitem (drawn_id env path (sv_state sv))
                                (sv_keys sv)
                   | _ => sv_keys sv
                   end |}).
Proof.
  unfold ordered_create_session.
  destruct (create_session_cases env lang path (sv_state sv))
    as [(e & He & _)|(Hres & o & c & ctx & Hheap & Hid & _)].
  - destruct (create_session env lang path (sv_state sv)) as [res s'].
    simpl in He. by subst res.
  - destruct (create_session env lang path (sv_state sv)) as [res s'].
    simpl in Hres, Hheap. subst res. simpl.
    rewrite Hheap, lookup_app_r by done. rewrite Nat.sub_diag. simpl.
    by rewrite Hid.
Qed.

Lemma serve_state (rq : request) (sv : served) :
  sv_state (snd (serve env rq sv)) = run_ops env (ops_of_request rq) (sv_state sv).
Proof.
  destruct rq as [|body|sid file_path|sid|];
    unfold serve, ops_of_request, run_ops; cbn [fold_left]; unfold run_op.
  - done.
  - unfold api_create_session. rewrite ordered_create_session_unfold.
    destruct (create_session env _ _ (sv_state sv)) as [[r|e|] s']; simpl.
    + by destruct (heap s' !! r).
    + destruct (exn_cls e); try done; by destruct (is_Exception e).
    + done.
  - unfold api_get_diagnostics. rewrite lift_get_session, get_session_unfold.
    destruct (_sessions (sv_state sv) !! sid) as [r|]; [|done].
    unfold lift. simpl.
    by destruct (get_diagnostics env r file_path _) as [[[ds|]|e|] s2].
  - unfold api_delete_session, ordered_delete_session.
    by destruct (delete_session env sid (sv_state sv)) as [[[]|e|] s'].
  - rewrite get_session_unfold.
    unfold api_list_sessions, list_sessions, lift, with_lock, with_, acquire,
      release, ret, registry_accessed, locked_registry_access, log; simpl.
    by rewrite <- app_assoc.
Qed.

Lemma serve_all_state (rqs : list request) (sv : served) :
  sv_state (snd (serve_all env rqs sv))
    = run_ops env (concat (ops_of_request <$> rqs)) (sv_state sv).
Proof.
  revert sv. induction rqs as [|rq rqs IH]; intros sv; [done|].
  simpl. pose proof (serve_state rq sv) as Hone.
  destruct (serve env rq sv) as [a sv1]. simpl in Hone.
  specialize (IH sv1). destruct (serve_all env rqs sv1) as [answers sv2].
  simpl in *. by rewrite run_ops_app, <- Hone.
Qed.

Lemma keys_setitem_elem (k k' : string) (keys : list string) :
  k' ∈ keys_setitem k keys <-> k' = k \/ k' ∈ keys.
Proof.
  unfold keys_setitem. case_bool_decide as Hin.
  - split; [by right|]. by intros [->|?].
  - rewrite elem_of_app, list_elem_of_singleton. tauto.
Qed.

Lemma keys_setitem_NoDup (k : string) (keys : list string) :
  NoDup keys -> NoDup (keys_setitem k keys).
Proof.
  intros Hnd. unfold keys_setitem. case_bool_decide as Hin; [done|].
  apply NoDup_app. split; [done|]. split; [|apply NoDup_singleton].
  intros x Hx Hx'. apply list_elem_of_singleton in Hx'. by subst.
Qed.

Lemma keys_pop_elem (k k' : string) (keys : list string) :
  k' ∈ keys_pop k keys <-> k' <> k /\ k' ∈ keys.
Proof. unfold keys_pop. by rewrite list_elem_of_filter. Qed.

Lemma serve_keys_inv (rq : request) (sv : served) :
  keys_inv sv -> keys_inv (snd (serve env rq sv)).
Proof.
  intros [Hnd Hkeys].
  destruct rq as [|body|sid file_path|sid|]; simpl.
  - done.
  - unfold api_create_session. rewrite ordered_create_session_unfold.
    destruct (create_session_cases env (request_language body)
                (request_project_path body) (sv_state sv))
      as [(e & He & Hreg)|(Hres & o & c & ctx & Hheap & Hid & _ & _ & _ & _ & Hreg & _)].
    + destruct (create_session env _ _ (sv_state sv)) as [res s'].
      simpl in He, Hreg. subst res. simpl.
      assert (Hinv : keys_inv {| sv_state := s'; sv_keys := sv_keys sv |}).
      { split; [done|]. intros k. simpl. by rewrite Hreg. }
      destruct (exn_cls e); try done; by destruct (is_Exception e).
    + destruct (create_session env _ _ (sv_state sv)) as [res s'].
      simpl in Hres, Hheap, Hreg. subst res. simpl.
      rewrite Hheap, lookup_app_r by done. rewrite Nat.sub_diag. simpl.
      split; simpl.
      * by apply keys_setitem_NoDup.
      * intros k. rewrite keys_setitem_elem, Hreg, Hkeys.
        destruct (decide (drawn_id env (request_project_path body) (sv_state sv) = k))
          as [<-|Hne].
        -- rewrite lookup_insert_eq. split; [by eexists|by left].
        -- rewrite lookup_insert_ne by done. split; [|by right].
           by intros [->|?].
  - unfold api_get_diagnostics. rewrite lift_get_session.
    destruct (_sessions (sv_state sv) !! sid) as [r|]; [|by split].
    unfold lift. simpl.
    destruct (get_diagnostics_same_ids env
                (registry_accessed (_sessions (sv_state sv)) (sv_state sv))
                r file_path) as [_ Hreg].
    destruct (get_diagnostics env r file_path _) as [res s2]. simpl in Hreg.
    assert (Hinv : keys_inv {| sv_state := s2; sv_keys := sv_keys sv |}).
    { split; [done|]. intros k. simpl. by rewrite Hreg. }
    by destruct res as [[ds|]|e|].
  - unfold api_delete_session, ordered_delete_session.
    pose proof (delete_session_sessions env sid (sv_state sv)) as Hreg.
    destruct (delete_session env sid (sv_state sv)) as [res s']. simpl in Hreg.
    assert (Hinv : keys_inv {| sv_state := s'; sv_keys := keys_pop sid (sv_keys sv) |}).
    { split; simpl.
      - by apply NoDup_filter.
      - intros k. rewrite keys_pop_elem, Hreg, Hkeys.
        destruct (decide (k = sid)) as [->|Hne].
        + rewrite lookup_delete_eq. split; [by intros [? _]|by intros [? ?]].
        + rewrite lookup_delete_ne by done. tauto. }
    by destruct res as [[]|e|].
  - by split.
Qed.

Lemma serve_all_keys_inv (rqs : list request) (sv : served) :
  keys_inv sv -> keys_inv (snd (serve_all env rqs sv)).
Proof.
  revert sv. induction rqs as [|rq rqs IH]; intros sv Hinv; [done|].
  simpl. pose proof (serve_keys_inv rq sv Hinv) as Hone.
  destruct (serve env rq sv) as [a sv1]. simpl in Hone.
  specialize (IH sv1 Hone). by destruct (serve_all env rqs sv1) as [answers sv2].
Qed.

End HandlerFacts.

Lemma keys_inv_initial : keys_inv initial_served.
Proof.
  split; [constructor|]. intros k. simpl. rewrite lookup_empty.
  split; [by intros ?%elem_of_nil|by intros [? ?]].
Qed.

Section EndpointFacts.

Variable env : environment.

Lemma create_session_bad_language (lang path : string) (s : state) :
  ~ valid_language lang ->
  create_session env lang path s
    = (Raise (Exn ValueError ("Unsupported language: " +:+ lang)), s).
Proof.
  intros Hl. unfold create_session. by rewrite (invalid_language_test lang Hl).
Qed.

Lemma create_session_relative_path (lang path : string) (s : state) :
  valid_language lang -> os_path_isabs env path = false ->
  create_session env lang path s
    = (Raise (Exn ValueError "project_path must be an absolute path"), s).
Proof.
  intros Hl Habs. unfold create_session.
  by rewrite (valid_language_test lang Hl), Habs.
Qed.

Lemma create_session_no_directory (lang path : string) (s : state) :
  valid_language lang -> os_path_isabs env path = true ->
  os_path_isdir env (trace s) path = false ->
  create_session env lang path s
    = (Raise (Exn ValueError ("project_path does not exist: " +:+ path)),
       log (EvIsDir path false) s).
Proof.
  intros Hl Habs Hdir. unfold create_session.
  rewrite (valid_language_test lang Hl), Habs. simpl.
  unfold bind, ask. by rewrite Hdir.
Qed.

(** What the handler answers once [create_session] has raised. *)
Lemma api_create_session_raise (request : InitSessionRequest) (sv : served)
    (e : exn) (s' : state) :
  create_session env (request_language request) (request_project_path request)
    (sv_state sv) = (Raise e, s') ->
  api_create_session env request sv =
    (match exn_cls e with
     | ValueError => HttpError {| status_code := 400; detail := exn_msg e |}
     | _ =>
         if is_Exception e then
           HttpError {| status_code := 500;
                        detail := "Failed to start LSP server: " +:+ exn_msg e |}
         else Uncaught e
     end,
     {| sv_state := s'; sv_keys := sv_keys sv |}).
Proof.
  intros Hc. unfold api_create_session.
  rewrite ordered_create_session_unfold, Hc. simpl.
  destruct (exn_cls e); try done; by destruct (is_Exception e).
Qed.

End EndpointFacts.

(** X8: a request to create a session with a language other than "python"
    and "java", with a path that is not absolute, or with a path that is
    not a directory is answered 400 with the message of the check that
    failed; the first two leave the server exactly as it was, the third
    has made the directory test and nothing else. *)
Theorem api_create_session_bad_request (env : environment)
    (request : InitSessionRequest) (sv : served) :
  (~ valid_language (request_language request) ->
     api_create_session env request sv =
       (HttpError {| status_code := 400;
                     detail := "Unsupported language: " +:+ request_language request |},
        sv)) /\
  (valid_language (request_language request) ->
   os_path_isabs env (request_project_path request) = false ->
     api_create_session env request sv =
       (HttpError {| status_code := 400;
                     detail := "project_path must be an absolute path" |}, sv)) /\
  (valid_language (request_language request) ->
   os_path_isabs env (request_project_path request) = true ->
   os_path_isdir env (trace (sv_state sv)) (request_project_path request) = false ->
     api_create_session env request sv =
       (HttpError {| status_code := 400;
                     detail := "project_path does not exist: "
                                 +:+ request_project_path request |},
        {| sv_state := log (EvIsDir (request_project_path request) false) (sv_state sv);
           sv_keys := sv_keys sv |})).
Proof.
  split; [|split].
  - intros Hl.
    rewrite (api_create_session_raise env request sv _ _
               (create_session_bad_language env _ _ _ Hl)).
    simpl. by rewrite served_eta.
  - intros Hl Habs.
    rewrite (api_create_session_raise env request sv _ _
               (create_session_relative_path env _ _ _ Hl Habs)).
    simpl. by rewrite served_eta.
  - intros Hl Habs Hdir.
    by rewrite (api_create_session_raise env request sv _ _
                  (create_session_no_directory env _ _ _ Hl Habs Hdir)).
Qed.

Lemma api_create_session_bad_request_witness :
  api_create_session quiet_env
      {| request_language := "rust"; request_project_path := "/srv/app" |}
      (one_served quiet_env)
    = (HttpError {| status_code := 400; detail := "Unsupported language: rust" |},
       one_served quiet_env) /\
  api_create_session quiet_env
      {| request_language := "java"; request_project_path := "srv/app" |}
      (one_served quiet_env)
    = (HttpError {| status_code := 400;
                    detail := "project_path must be an absolute path" |},
       one_served quiet_env).
Proof.
  split.
  - refine (proj1 (api_create_session_bad_request quiet_env
              {| request_language := "rust"; request_project_path := "/srv/app" |}
              (one_served quiet_env)) _).
    intros [H|H]; discriminate H.
  - exact (proj1 (proj2 (api_create_session_bad_request quiet_env
              {| request_language := "java"; request_project_path := "srv/app" |}
              (one_served quiet_env))) (or_intror eq_refl) eq_refl).
Defined.



(** X10: when [create_session] returns a session, the handler answers with
    the identifier drawn, the status "ready" and the language and path of
    the request; the identifier is then a key of the registry, and a
    diagnostics request for it made next is not answered "Session not
    found". *)
Theorem api_create_session_ready (env : environment)
    (request : InitSessionRequest) (sv : served) (r : ref) :
  fst (create_session env (request_language request)
         (request_project_path request) (sv_state sv)) = Ret r ->
  exists sv1,
    api_create_session env request sv =
      (Responds {| init_session_id :=
                     drawn_id env (request_project_path request) (sv_state sv);
                   init_status := "ready";
                   init_language := request_language request;
                   init_project_path := request_project_path request |}, sv1) /\
    _sessions (sv_state sv1)
      !! drawn_id env (request_project_path request) (sv_state sv) = Some r /\
    sv_keys sv1
      = keys_setitem (drawn_id env (request_project_path request) (sv_state sv))
          (sv_keys sv) /\
    forall file_path,
      fst (api_get_diagnostics env
             (drawn_id env (request_project_path request) (sv_state sv))
             file_path sv1)
        <> HttpError {| status_code := 404;
                        detail := "Session not found: "
                          +:+ drawn_id env (request_project_path request)
                                (sv_state sv) |}.
Proof.
  intros Hres.
  destruct (create_session_cases env (request_language request)
              (request_project_path request) (sv_state sv))
    as [(e & He & _)|(Hres' & o & c & ctx & Hheap & Hid & Hlang & Hpath & _ & _ & Hreg & _)];
    [congruence|].
  assert (r = length (heap (sv_state sv))) as -> by congruence.
  eexists. split; [|split; [|split]].
  - unfold api_create_session. rewrite ordered_create_session_unfold, Hres.
    simpl. rewrite Hheap, lookup_app_r by done. rewrite Nat.sub_diag. simpl.
    by rewrite Hid, Hlang, Hpath.
  - simpl. rewrite Hreg. apply lookup_insert_eq.
  - done.
  - intros file_path. unfold api_get_diagnostics. rewrite lift_get_session.
    simpl. rewrite Hreg, lookup_insert_eq. unfold lift.
    destruct (get_diagnostics env _ file_path _) as [[[ds|]|e|] s2]; simpl;
      try done.
    destruct (exn_cls e); try done; by destruct (is_Exception e).
Qed.

Lemma api_create_session_ready_witness :
  fst (api_create_session quiet_env
         {| request_language := "python"; request_project_path := "/srv/app" |}
         initial_served)
    = Responds {| init_session_id := "3f2a9c04d17e"; init_status := "ready";
                  init_language := "python"; init_project_path := "/srv/app" |}.
Proof.
  destruct (api_create_session_ready quiet_env
              {| request_language := "python"; request_project_path := "/srv/app" |}
              initial_served 0 eq_refl) as (sv1 & H & _).
  rewrite H. reflexivity.
Defined.

Lemma api_get_diagnostics_not_found (env : environment)
    (sid file_path : string) (sv : served) :
  _sessions (sv_state sv) !! sid = None ->
  api_get_diagnostics env sid file_path sv =
    (HttpError {| status_code := 404; detail := "Session not found: " +:+ sid |},
     {| sv_state := registry_accessed (_sessions (sv_state sv)) (sv_state sv);
        sv_keys := sv_keys sv |}).
Proof.
  intros Hnone. unfold api_get_diagnostics. by rewrite lift_get_session, Hnone.
Qed.

(** X11: a diagnostics request for an identifier the registry does not
    hold is answered 404 "Session not found" after the lookup alone: the
    manager's lock was taken and given back, and nothing else was
    called. *)
Theorem api_get_diagnostics_unknown_session (env : environment)
    (sid file_path : string) (sv : served) :
  _sessions (sv_state sv) !! sid = None ->
  api_get_diagnostics env sid file_path sv =
    (HttpError {| status_code := 404; detail := "Session not found: " +:+ sid |},
     {| sv_state := registry_accessed (_sessions (sv_state sv)) (sv_state sv);
        sv_keys := sv_keys sv |}).
Proof. apply api_get_diagnostics_not_found. Qed.

Lemma api_get_diagnostics_unknown_session_witness :
  fst (api_get_diagnostics quiet_env "b81e55a07c3d" "app/main.py"
         (one_served quiet_env))
    = HttpError {| status_code := 404;
                   detail := "Session not found: b81e55a07c3d" |}.
Proof.
  rewrite (api_get_diagnostics_unknown_session quiet_env "b81e55a07c3d"
             "app/main.py" (one_served quiet_env) eq_refl).
  reflexivity.
Defined.

(** X12: a diagnostics request for a registered session answers by what
    [get_diagnostics] did: a list gives the response with that list and
    its length as count; [FileNotFoundError] gives 404 "File not found"
    with the path of the request; any other [Exception] gives 500 with
    its message; [None] gives 500 with the message of iterating over
    [None].  Whatever the answer, the registry, its keys and the session
    objects are as before the request. *)
Theorem api_get_diagnostics_answers (env : environment)
    (sid file_path : string) (sv : served) (r : ref)
    (res : result (option (list DiagnosticItem))) (s2 : state) :
  _sessions (sv_state sv) !! sid = Some r ->
  get_diagnostics env r file_path
    (registry_accessed (_sessions (sv_state sv)) (sv_state sv)) = (res, s2) ->
  snd (api_get_diagnostics env sid file_path sv)
    = {| sv_state := s2; sv_keys := sv_keys sv |} /\
  _sessions s2 = _sessions (sv_state sv) /\ heap s2 = heap (sv_state sv) /\
  (forall ds, res = Ret (Some ds) ->
     fst (api_get_diagnostics env sid file_path sv)
       = Responds {| diagnostics_file_path := file_path;
                     diagnostics := ds; count := length ds |}) /\
  (res = Ret None ->
     fst (api_get_diagnostics env sid file_path sv)
       = HttpError {| status_code := 500;
                      detail := "Error getting diagnostics: 'NoneType' object is not iterable" |}) /\
  (forall e, res = Raise e -> exn_cls e = FileNotFoundError ->
     fst (api_get_diagnostics env sid file_path sv)
       = HttpError {| status_code := 404;
                      detail := "File not found: " +:+ file_path |}) /\
  (forall e, res = Raise e -> exn_cls e <> FileNotFoundError ->
     is_Exception e = true ->
     fst (api_get_diagnostics env sid file_path sv)
       = HttpError {| status_code := 500;
                      detail := "Error getting diagnostics: " +:+ exn_msg e |}) /\
  (forall e, res = Raise e -> is_Exception e = false ->
     fst (api_get_diagnostics env sid file_path sv) = Uncaught e).
Proof.
  intros Hsid Hrun.
  destruct (get_diagnostics_same_ids env
              (registry_accessed (_sessions (sv_state sv)) (sv_state sv))
              r file_path) as [_ Hreg].
  pose proof (get_diagnostics_heap env
                (registry_accessed (_sessions (sv_state sv)) (sv_state sv))
                r file_path) as Hheap.
  rewrite Hrun in Hreg, Hheap. simpl in Hreg, Hheap.
  unfold api_get_diagnostics. rewrite lift_get_session, Hsid.
  unfold lift. simpl. rewrite Hrun.
  split; [by destruct res as [[ds|]|e|]|].
  split; [done|]. split; [done|].
  split; [by intros ds ->|]. split; [by intros ->|].
  split; [|split].
  - intros e -> Hcls. simpl. by rewrite Hcls.
  - intros e -> Hne He. simpl. rewrite He. by destruct (exn_cls e).
  - intros e -> He. simpl. rewrite He.
    unfold is_Exception in He. by destruct (exn_cls e).
Qed.

Lemma api_get_diagnostics_answers_witness :
  fst (api_get_diagnostics missing_file_env "3f2a9c04d17e" "app/gone.py"
         (one_served missing_file_env))
    = HttpError {| status_code := 404; detail := "File not found: app/gone.py" |}.
Proof.
  refine (proj1 (proj2 (proj2 (proj2 (proj2 (proj2
            (api_get_diagnostics_answers missing_file_env "3f2a9c04d17e"
               "app/gone.py" (one_served missing_file_env) 0 _ _
               eq_refl eq_refl))))))
            (Exn FileNotFoundError "[Errno 2] No such file or directory")
            eq_refl eq_refl).
Defined.

(** X13: a request to delete an identifier the registry does not hold is
    answered 404 "Session not found".  For a registered one the session
    is stopped and the answer is "shutdown" with the identifier in the
    message; the identifier is then no key any more, and a diagnostics
    request for it is answered 404 "Session not found". *)
Theorem api_delete_session_answers (env : environment) (sid : string)
    (sv : served) :
  (_sessions (sv_state sv) !! sid = None ->
     fst (api_delete_session env sid sv)
       = HttpError {| status_code := 404; detail := "Session not found: " +:+ sid |} /\
     sv_state (snd (api_delete_session env sid sv))
       = registry_accessed (_sessions (sv_state sv)) (sv_state sv)) /\
  (forall r o,
     _sessions (sv_state sv) !! sid = Some r ->
     heap (sv_state sv) !! r = Some o ->
     (forall ctx e, server_context o = Some ctx ->
        ctx_exit env (trace (sv_state sv) ++ locked_registry_access) ctx = Raises e ->
        is_Exception e = true) ->
     fst (api_delete_session env sid sv)
       = Responds {| status := "shutdown";
                     status_message :=
                       Some ("Session " +:+ sid +:+ " has been shutdown") |} /\
     (sid ∉ sv_keys (snd (api_delete_session env sid sv))) /\
     forall file_path,
       fst (api_get_diagnostics env sid file_path
              (snd (api_delete_session env sid sv)))
         = HttpError {| status_code := 404;
                        detail := "Session not found: " +:+ sid |}).
Proof.
  split.
  - intros Hnone. unfold api_delete_session, ordered_delete_session.
    rewrite delete_session_unfold, Hnone. simpl.
    by rewrite (delete_id _ _ Hnone).
  - intros r o Hsid Hr Hexc.
    destruct (stop_returns env
                (registry_accessed (delete sid (_sessions (sv_state sv))) (sv_state sv))
                r o Hr Hexc) as [s' Hstop].
    pose proof (delete_session_sessions env sid (sv_state sv)) as Hreg.
    unfold api_delete_session, ordered_delete_session.
    rewrite delete_session_unfold, Hsid, Hstop in *. simpl in *.
    split; [done|]. split.
    + rewrite keys_pop_elem. by intros [? _].
    + intros file_path.
      rewrite api_get_diagnostics_not_found; [done|].
      simpl. rewrite Hreg. apply lookup_delete_eq.
Qed.

Lemma api_delete_session_answers_witness :
  fst (api_delete_session failing_teardown_env "3f2a9c04d17e"
         (one_served failing_teardown_env))
    = Responds {| status := "shutdown";
                  status_message := Some "Session 3f2a9c04d17e has been shutdown" |} /\
  fst (api_get_diagnostics failing_teardown_env "3f2a9c04d17e" "app/main.py"
         (snd (api_delete_session failing_teardown_env "3f2a9c04d17e"
                 (one_served failing_teardown_env))))
    = HttpError {| status_code := 404;
                   detail := "Session not found: 3f2a9c04d17e" |}.
Proof.
  destruct (proj2 (api_delete_session_answers failing_teardown_env "3f2a9c04d17e"
                     (one_served failing_teardown_env)) 0
              {| session_id := "3f2a9c04d17e"; language := "python";
                 project_path := "/srv/app"; lsp := Some 3;
                 server_context := Some 4; created_at := 2 |}
              eq_refl eq_refl) as (H1 & _ & H2).
  - intros ctx e _ H. injection H as <-. reflexivity.
  - split; [exact H1|exact (H2 "app/main.py")].
Defined.

(** X14: after any sequence of requests, the keys [list_sessions] returns
    are the identifiers the registry holds, each once; every session the
    registry holds is running; and no lock is held. *)
Theorem list_sessions_lists_the_registry (env : environment)
    (rqs : list request) :
  fst (api_list_sessions (snd (serve_all env rqs initial_served)))
    = Responds (Some (sv_keys (snd (serve_all env rqs initial_served)))) /\
  NoDup (sv_keys (snd (serve_all env rqs initial_served))) /\
  (forall k,
     k ∈ sv_keys (snd (serve_all env rqs initial_served)) <->
     is_Some (_sessions (sv_state (snd (serve_all env rqs initial_served))) !! k)) /\
  running_inv env (sv_state (snd (serve_all env rqs initial_served))) /\
  lock_scan None (trace (sv_state (snd (serve_all env rqs initial_served))))
    = Some None.
Proof.
  destruct (serve_all_keys_inv env rqs initial_served keys_inv_initial)
    as [Hnd Hkeys].
  split; [done|]. split; [done|]. split; [done|].
  rewrite serve_all_state. split.
  - apply run_ops_running, running_inv_initial.
  - apply run_ops_well_locked.
Qed.

Lemma api_create_session_responds (env : environment)
    (request : InitSessionRequest) (sv sv1 : served) (ra : InitSessionResponse) :
  api_create_session env request sv = (Responds ra, sv1) ->
  sv_keys sv1 = keys_setitem (init_session_id ra) (sv_keys sv).
Proof.
  unfold api_create_session. rewrite ordered_create_session_unfold.
  destruct (create_session_cases env (request_language request)
              (request_project_path request) (sv_state sv))
    as [(e & He & _)|(Hres & o & c & ctx & Hheap & Hid & _)].
  - destruct (create_session env _ _ (sv_state sv)) as [res s'].
    simpl in He. subst res. simpl.
    destruct (exn_cls e); try done; by destruct (is_Exception e).
  - destruct (create_session env _ _ (sv_state sv)) as [res s'].
    simpl in Hres, Hheap. subst res. simpl.
    rewrite Hheap, lookup_app_r by done. rewrite Nat.sub_diag. simpl.
    intros [= <- <-]. simpl. by rewrite Hid.
Qed.

Lemma api_delete_session_keys (env : environment) (sid : string) (sv : served) :
  sv_keys (snd (api_delete_session env sid sv)) = keys_pop sid (sv_keys sv).
Proof.
  unfold api_delete_session, ordered_delete_session.
  by destruct (delete_session env sid (sv_state sv)) as [[[]|e|] s'].
Qed.

(** X15: two sessions are created and get different identifiers, the
    first is deleted: whatever its teardown did, the listing that follows
    is exactly the identifier of the second. *)
Theorem list_after_two_creates_and_a_delete (env : environment)
    (a b : InitSessionRequest) (ra rb : InitSessionResponse)
    (sv1 sv2 : served) :
  api_create_session env a initial_served = (Responds ra, sv1) ->
  api_create_session env b sv1 = (Responds rb, sv2) ->
  init_session_id ra <> init_session_id rb ->
  fst (api_list_sessions
         (snd (api_delete_session env (init_session_id ra) sv2)))
    = Responds (Some [init_session_id rb]).
Proof.
  intros Ha Hb Hne.
  apply api_create_session_responds in Ha, Hb.
  assert (Hkeys : sv_keys (snd (api_delete_session env (init_session_id ra) sv2))
                  = [init_session_id rb]).
  { rewrite api_delete_session_keys, Hb, Ha. simpl.
    unfold keys_setitem. simpl.
    rewrite bool_decide_eq_false_2.
    2:{ rewrite list_elem_of_singleton. congruence. }
    unfold keys_pop. simpl.
    rewrite filter_cons_False by (intros H; by apply H).
    rewrite filter_cons_True by congruence. done. }
  unfold api_list_sessions, list_sessions, lift, with_lock, with_, acquire,
    release, ret; simpl. by rewrite Hkeys.
Qed.

Lemma list_after_two_creates_and_a_delete_witness :
  fst (api_list_sessions
         (snd (api_delete_session failing_teardown_env "3f2a9c04d17e"
                 (snd (api_create_session failing_teardown_env
                         {| request_language := "java";
                            request_project_path := "/srv/shop" |}
                         (one_served failing_teardown_env))))))
    = Responds (Some ["b81e55a07c3d"]).
Proof.
  apply (list_after_two_creates_and_a_delete failing_teardown_env
            {| request_language := "python"; request_project_path := "/srv/app" |}
            {| request_language := "java"; request_project_path := "/srv/shop" |}
            {| init_session_id := "3f2a9c04d17e"; init_status := "ready";
               init_language := "python"; init_project_path := "/srv/app" |}
            {| init_session_id := "b81e55a07c3d"; init_status := "ready";
               init_language := "java"; init_project_path := "/srv/shop" |}
            (one_served failing_teardown_env)
            (snd (api_create_session failing_teardown_env
                    {| request_language := "java";
                       request_project_path := "/srv/shop" |}
                    (one_served failing_teardown_env)))).
  - vm_compute. reflexivity.
  - vm_compute. reflexivity.
  - discriminate.
Defined.

End GatewayFacts.
